(** * dexflow_realtime: aggregation, pagination, change detection, rate limiting

    A shallow embedding of the TypeScript sources of the token aggregator
    (AggregatorService, WebSocketService, RateLimiter, CacheService and
    TokenController) together with the properties the specification states
    about them.

    Conventions of the embedding:
    - a JavaScript [number] that carries market data (prices, volumes, ...)
      is an IEEE-754 binary64 value, i.e. Rocq's primitive [float];
    - a [number] that is only ever an array index, a request counter or a
      millisecond timestamp is integer valued and is modelled as [Z]
      (doubles are exact on integers below 2^53);
    - an optional field [f?: T] is an [option T], [None] being [undefined];
    - a [Map] whose iteration order is observed is an association list in
      insertion order, a [Map] that is only looked up is a [gmap];
    - [await]ed collaborators that live outside the repository (Redis, the
      upstream HTTP providers) are inputs of the functions that use them. *)

From Stdlib Require Import ZArith Floats List Bool Ascii String Lia.
From stdpp Require Import base option list gmap strings pretty.

Set Default Proof Using "Type".

(* ===================================================================== *)
(** * Part I: the program                                                 *)
(* ===================================================================== *)

(** ** JavaScript built-ins used by the sources *)
Module JS.

(** [number] values that hold market data. *)
Abbreviation number := float.

(** ToBoolean on a number: [+0], [-0] and [NaN] are falsy. *)
Definition truthy (x : number) : bool :=
  match classify x with
  | PZero | NZero | NaN => false
  | _ => true
  end.

(** [x || d] for an optional numeric field [x]. *)
Definition or_else (x : option number) (d : number) : number :=
  match x with
  | Some v => if truthy v then v else d
  | None => d
  end.

(** [x === undefined] for an optional field. *)
Definition is_undefined {A} (x : option A) : bool :=
  match x with None => true | Some _ => false end.

(** The loop of ECMAScript's [Math.max ( ...args )]: [highest] starts at
    -Infinity; a NaN argument returns NaN at once; [+0] beats [-0]; a
    larger argument replaces [highest]. *)
Fixpoint max_loop (highest : number) (coerced : list number) : number :=
  match coerced with
  | [] => highest
  | n :: rest =>
      if is_nan n then PrimFloat.nan
      else
        let highest :=
          match classify n, classify highest with
          | PZero, NZero => PrimFloat.zero
          | _, _ => highest
          end in
        let highest := if (highest <? n)%float then n else highest in
        max_loop highest rest
  end.

Definition Math_max (a b : number) : number := max_loop PrimFloat.neg_infinity [a; b].

Definition Math_abs (a : number) : number := abs a.

(** [String.prototype.toLowerCase] on the ASCII letters; every other code
    unit is left as it is. *)
Definition lower_ascii (c : ascii) : ascii :=
  let n := nat_of_ascii c in
  if (65 <=? n)%nat && (n <=? 90)%nat then ascii_of_nat (n + 32) else c.

Fixpoint toLowerCase (s : string) : string :=
  match s with
  | EmptyString => EmptyString
  | String c r => String (lower_ascii c) (toLowerCase r)
  end.

(** The result of [parseInt]: NaN or an integer. *)
Inductive jsint :=
  | JNaN
  | JInt (z : Z).

(** White space skipped by [parseInt] (StrWhiteSpaceChar), on code units
    below 256: TAB, LF, VT, FF, CR, SP and NBSP. *)
Definition is_white (c : ascii) : bool :=
  let n := nat_of_ascii c in
  (n =? 9)%nat || (n =? 10)%nat || (n =? 11)%nat || (n =? 12)%nat
  || (n =? 13)%nat || (n =? 32)%nat || (n =? 160)%nat.

Fixpoint trim_start (s : string) : string :=
  match s with
  | String c r => if is_white c then trim_start r else s
  | EmptyString => EmptyString
  end.

Definition digit_of (c : ascii) : option Z :=
  let n := nat_of_ascii c in
  if (48 <=? n)%nat && (n <=? 57)%nat then Some (Z.of_nat (n - 48)) else None.

(** The longest prefix of decimal digits, read as a number; [None] when the
    prefix is empty. *)
Fixpoint digits (acc : option Z) (s : string) : option Z :=
  match s with
  | String c r =>
      match digit_of c with
      | Some d => digits (Some (10 * default 0%Z acc + d)%Z) r
      | None => acc
      end
  | EmptyString => acc
  end.

(** [parseInt(s, 10)]: skip white space, read an optional sign, then the
    longest run of decimal digits; NaN if there is none. *)
Definition parseInt (s : string) : jsint :=
  let s := trim_start s in
  let '(sign, s) :=
    match s with
    | String "-" r => ((-1)%Z, r)
    | String "+" r => (1%Z, r)
    | _ => (1%Z, s)
    end in
  match digits None s with
  | Some z => JInt (sign * z)
  | None => JNaN
  end.

(** [x < y] and [x > y] where [x] may be NaN and [y] is an integer. *)
Definition lt_int (x : jsint) (y : Z) : bool :=
  match x with JNaN => false | JInt z => (z <? y)%Z end.
Definition gt_int (x : jsint) (y : Z) : bool :=
  match x with JNaN => false | JInt z => (y <? z)%Z end.

(** [x + y] with a possibly-NaN left operand. *)
Definition add_int (x : jsint) (y : jsint) : jsint :=
  match x, y with
  | JInt a, JInt b => JInt (a + b)
  | _, _ => JNaN
  end.

(** ToIntegerOrInfinity, as [Array.prototype.slice] applies it to its
    arguments: NaN becomes 0. *)
Definition to_integer (x : jsint) : Z :=
  match x with JNaN => 0%Z | JInt z => z end.

(** [Array.prototype.slice(start, end)]: a negative index counts from the
    end of the array, both indices are clamped to [0, len]. *)
Definition slice {A} (l : list A) (start stop : jsint) : list A :=
  let len := Z.of_nat (length l) in
  let relativeStart := to_integer start in
  let k := if (relativeStart <? 0)%Z then Z.max (len + relativeStart) 0
           else Z.min relativeStart len in
  let relativeEnd := to_integer stop in
  let final := if (relativeEnd <? 0)%Z then Z.max (len + relativeEnd) 0
               else Z.min relativeEnd len in
  let count := Z.max (final - k) 0 in
  take (Z.to_nat count) (drop (Z.to_nat k) l).

(** [Number.prototype.toString()] on an integer: its decimal numeral. *)
Definition toString (z : Z) : string := pretty z.

(** [Array.prototype.sort] is stable (ES2019); it is modelled by the
    insertion sort that moves an element past exactly the later elements
    the comparator puts before it.  The comparator's result is a number: a
    negative [cmp a b] puts [a] before [b]; NaN counts as 0. *)
Fixpoint sort_insert {A} (cmp : A -> A -> number) (x : A) (l : list A) : list A :=
  match l with
  | [] => [x]
  | y :: r =>
      if (cmp y x <? 0)%float then y :: sort_insert cmp x r else x :: l
  end.

Definition sort {A} (cmp : A -> A -> number) (l : list A) : list A :=
  foldr (sort_insert cmp) [] l.

(** A [Map<string, V>] whose iteration order is observed: the entries in
    insertion order.  [set] on a present key keeps the entry's position. *)
Definition Map (V : Type) := list (string * V).

Fixpoint Map_get {V} (m : Map V) (key : string) : option V :=
  match m with
  | [] => None
  | (k, v) :: r => if String.eqb k key then Some v else Map_get r key
  end.

Definition Map_has {V} (m : Map V) (key : string) : bool :=
  match Map_get m key with Some _ => true | None => false end.

Fixpoint Map_set {V} (m : Map V) (key : string) (value : V) : Map V :=
  match m with
  | [] => [(key, value)]
  | (k, v) :: r =>
      if String.eqb k key then (k, value) :: r else (k, v) :: Map_set r key value
  end.

Definition Map_values {V} (m : Map V) : list V := map snd m.

End JS.

(** ** src/types/index.ts *)
Module Types.
Import JS.

Record Token := mkToken {
  token_address : string;
  token_name : string;
  token_ticker : string;
  price_sol : number;
  market_cap_sol : number;
  volume_sol : number;
  liquidity_sol : number;
  transaction_count : number;
  price_1hr_change : option number;
  price_24hr_change : option number;
  price_7d_change : option number;
  protocol : string;
  dex_id : option string;
  pair_address : option string;
  price_usd : option number;
  fdv : option number;
  last_updated : option number;
}.

(** Every field of a [TokenQuery] is optional.  [limit] is a number the
    controller obtains from [parseInt], hence possibly NaN. *)
Record TokenQuery := mkTokenQuery {
  limit : option jsint;
  cursor : option string;
  sortBy : option string;
  order : option string;
  period : option string;
  search : option string;
  minVolume : option number;
}.

(** The [pagination] object of a [PaginatedResponse]; its field [limit] is
    [page_limit] here, [limit] being the field of [TokenQuery]. *)
Record Pagination := mkPagination {
  nextCursor : option string;
  total : Z;
  page_limit : jsint;
}.

Record PaginatedResponse (T : Type) := mkPaginatedResponse {
  data : list T;
  pagination : Pagination;
}.
Arguments mkPaginatedResponse {T} _ _.
Arguments data {T} _.
Arguments pagination {T} _.

(** [token_address] of the two event records is prefixed, the name being
    the field of [Token]. *)
Record PriceUpdateEvent := mkPriceUpdateEvent {
  pu_token_address : string;
  old_price : number;
  new_price : number;
  change_percent : number;
}.

Record VolumeSpike := mkVolumeSpike {
  vs_token_address : string;
  old_volume : number;
  new_volume : number;
  spike_percent : number;
}.

Record RateLimitInfo := mkRateLimitInfo {
  requests : Z;
  windowStart : Z;
  blocked : bool;
}.

(** The outcome of an [async] function: its value, or the error it throws. *)
Inductive result (A : Type) :=
  | Ok (value : A)
  | Throw (error : string).
Arguments Ok {A} _.
Arguments Throw {A} _.

(** An element of the array [Promise.allSettled] resolves to. *)
Inductive settled (A : Type) :=
  | fulfilled (value : A)
  | rejected (reason : string).
Arguments fulfilled {A} _.
Arguments rejected {A} _.

(** What [await p] gives inside a [try]: a rejection is thrown. *)
Definition await {A} (p : settled A) : result A :=
  match p with
  | fulfilled v => Ok v
  | rejected e => Throw e
  end.

End Types.

(** ** src/services/cache.service.ts

    The Redis client is a finite map from keys to the stored token lists;
    serialisation to JSON and back is taken as the identity on them and
    expiry is left out.  Every operation returns its "miss" value when the
    service is not connected. *)
Module CacheService.
Import Types.

Record t := mk {
  isConnected : bool;
  client : gmap string (list Token);
}.

Definition get (c : t) (key : string) : option (list Token) :=
  if negb (isConnected c) then None
  else client c !! key.

Definition set (c : t) (key : string) (value : list Token) : bool * t :=
  if negb (isConnected c) then (false, c)
  else (true, mk (isConnected c) (<[key := value]> (client c))).

Definition delete (c : t) (key : string) : bool * t :=
  if negb (isConnected c) then (false, c)
  else (true, mk (isConnected c) (base.delete key (client c))).

(** [exists(key)]: whether Redis counts one key. *)
Definition exists_ (c : t) (key : string) : bool :=
  if negb (isConnected c) then false
  else match client c !! key with Some _ => true | None => false end.

Definition getConnectionStatus (c : t) : bool := isConnected c.

(** The handlers [setupEventHandlers] registers on the client. *)
Definition on_connect (c : t) : t := mk true (client c).
Definition on_error (c : t) : t := mk false (client c).
Definition on_close (c : t) : t := mk false (client c).
Definition on_reconnecting (c : t) : t := c.

(** [retryStrategy]: the delay before reconnection attempt number [times]. *)
Definition retryStrategy (times : Z) : Z := Z.min (times * 50) 2000.

Section WithKeys.
(** [glob pattern key]: whether Redis's [KEYS pattern] lists [key]. *)
Variable glob : string -> string -> bool.

Definition deletePattern (c : t) (pattern : string) : Z * t :=
  if negb (isConnected c) then (0%Z, c)
  else
    let keys := List.filter (glob pattern) (map fst (map_to_list (client c))) in
    if (length keys =? 0)%nat then (0%Z, c)
    else
      (Z.of_nat (length keys),
       mk (isConnected c)
          (fold_left (fun store key => base.delete key store) keys (client c))).

End WithKeys.

End CacheService.

(** The entries of the same cache that hold one token ([get<Token>]),
    under keys of their own: a second map with the same two operations. *)
Module TokenCache.
Import Types.

Record t := mk {
  isConnected : bool;
  client : gmap string Token;
}.

Definition get (c : t) (key : string) : option Token :=
  if negb (isConnected c) then None
  else client c !! key.

Definition set (c : t) (key : string) (value : Token) : bool * t :=
  if negb (isConnected c) then (false, c)
  else (true, mk (isConnected c) (<[key := value]> (client c))).

End TokenCache.

(** ** src/services/jupiter.api.ts (the second half of src/unnamed/part_001)

    The shape the Jupiter search gives its tokens.  [Date.now()] is the
    argument [now]. *)
Module JupiterAPI.
Import JS Types.

(** The fields of a [JupiterToken] the transformation reads. *)
Record JupiterToken := mkJupiterToken {
  address : string;
  name : string;
  symbol : string;
  daily_volume : option number;
}.

Definition transformJupiterTokens (now : number)
    (jupiterTokens : list JupiterToken) : list Token :=
  map (fun jToken =>
    {| token_address := address jToken;
       token_name := name jToken;
       token_ticker := symbol jToken;
       price_sol := 0;
       market_cap_sol := 0;
       volume_sol := or_else (daily_volume jToken) 0;
       liquidity_sol := 0;
       transaction_count := 0;
       price_1hr_change := None;
       price_24hr_change := None;
       price_7d_change := None;
       protocol := "Jupiter";
       dex_id := None;
       pair_address := None;
       price_usd := None;
       fdv := None;
       last_updated := Some now |}) jupiterTokens.

End JupiterAPI.

(** ** src/services/aggregator.service.ts (the second half of
    src/src/services/websocket.service.ts) *)
Module AggregatorService.
Import JS Types.

(** The two upstream clients, [dexScreenerAPI] and [jupiterAPI]: for each
    query, the promise their [searchTokens] settles to. *)
Record Upstream := mkUpstream {
  dexScreenerAPI_searchTokens : string -> settled (list Token);
  jupiterAPI_searchTokens : string -> settled (list Token);
}.

Definition CACHE_PREFIX : string := "aggregated:".

Definition mergeTokenData (token1 token2 : option Token) : option Token :=
  match token1, token2 with
  | None, None => None
  | None, Some _ => token2
  | Some _, None => token1
  | Some t1, Some t2 =>
      let base := if (0 <? price_sol t1)%float then t1 else t2 in
      let supplement := if (0 <? price_sol t1)%float then t2 else t1 in
      Some {|
        token_address := token_address base;
        token_name := token_name base;
        token_ticker := token_ticker base;
        price_sol := price_sol base;
        market_cap_sol := market_cap_sol base;
        volume_sol := (volume_sol base + volume_sol supplement)%float;
        liquidity_sol := Math_max (liquidity_sol base) (liquidity_sol supplement);
        transaction_count :=
          Math_max (transaction_count base) (transaction_count supplement);
        price_1hr_change := price_1hr_change base;
        price_24hr_change := price_24hr_change base;
        price_7d_change := price_7d_change base;
        protocol := protocol base;
        dex_id := dex_id base;
        pair_address := pair_address base;
        price_usd := price_usd base;
        fdv := fdv base;
        last_updated :=
          Some (Math_max (or_else (last_updated base) 0)
                         (or_else (last_updated supplement) 0));
      |}
  end.

(** The body of the [for] loop of [mergeAndDeduplicateTokens].  The merge
    of an existing entry with [token] is never [null], its second argument
    being a token. *)
Definition merge_step (tokenMap : Map Token) (token : Token) : Map Token :=
  let key := toLowerCase (token_address token) in
  if negb (Map_has tokenMap key) then Map_set tokenMap key token
  else
    let existing := Map_get tokenMap key in
    match mergeTokenData existing (Some token) with
    | Some merged => Map_set tokenMap key merged
    | None => tokenMap
    end.

Definition mergeAndDeduplicateTokens (tokens : list Token) : list Token :=
  Map_values (fold_left merge_step tokens []).

Definition applyFilters (tokens : list Token) (period : string)
    (minVolume : number) : list Token :=
  List.filter (fun token =>
    if (volume_sol token <? minVolume)%float then false
    else if String.eqb period "1h" && is_undefined (price_1hr_change token)
    then false
    else true) tokens.

Definition sortTokens (tokens : list Token) (sortBy order : string)
    : list Token :=
  JS.sort (fun a b =>
    let '(aValue, bValue) :=
      if String.eqb sortBy "volume" then (volume_sol a, volume_sol b)
      else if String.eqb sortBy "price_change" then
        (or_else (price_24hr_change a) 0, or_else (price_24hr_change b) 0)
      else if String.eqb sortBy "market_cap" then
        (market_cap_sol a, market_cap_sol b)
      else if String.eqb sortBy "liquidity" then
        (liquidity_sol a, liquidity_sol b)
      else (volume_sol a, volume_sol b) in
    if String.eqb order "asc" then (aValue - bValue)%float
    else (bValue - aValue)%float) tokens.

Definition searchTokens (up : Upstream) (cache : CacheService.t)
    (query : string) : result (list Token) * CacheService.t :=
  let cacheKey := (CACHE_PREFIX ++ "search:" ++ query)%string in
  match CacheService.get cache cacheKey with
  | Some cached => (Ok cached, cache)
  | None =>
      let dexScreenerTokens := dexScreenerAPI_searchTokens up query in
      let jupiterTokens := jupiterAPI_searchTokens up query in
      let dexTokens :=
        match dexScreenerTokens with fulfilled v => v | rejected _ => [] end in
      let jupTokens :=
        match jupiterTokens with fulfilled v => v | rejected _ => [] end in
      let mergedTokens := mergeAndDeduplicateTokens (dexTokens ++ jupTokens) in
      let cache := snd (CacheService.set cache cacheKey mergedTokens) in
      (Ok mergedTokens, cache)
  end.

(** The base token set of [getFilteredTokens]: the search result when a
    search string is given, else the cached or freshly fetched "popular"
    list. *)
Definition resolveTokens (up : Upstream) (cache : CacheService.t)
    (search : string) : result (list Token) * CacheService.t :=
  if negb (String.eqb search "") then searchTokens up cache search
  else
    let cacheKey := (CACHE_PREFIX ++ "popular")%string in
    match CacheService.get cache cacheKey with
    | Some cached => (Ok cached, cache)
    | None =>
        match await (dexScreenerAPI_searchTokens up "SOL") with
        | Throw e => (Throw e, cache)
        | Ok tokens =>
            (Ok tokens, snd (CacheService.set cache cacheKey tokens))
        end
    end.

(** [cursor ? parseInt(cursor, 10) : 0] *)
Definition startIndexOf (cursor : option string) : jsint :=
  match cursor with
  | Some c => if String.eqb c "" then JInt 0 else parseInt c
  | None => JInt 0
  end.

(** The pagination step at the end of [getFilteredTokens]. *)
Definition paginate (filteredTokens : list Token) (cursor : option string)
    (limit : jsint) : PaginatedResponse Token :=
  let startIndex := startIndexOf cursor in
  let endIndex := add_int startIndex limit in
  let paginatedTokens := slice filteredTokens startIndex endIndex in
  let nextCursor :=
    match endIndex with
    | JInt e =>
        if (e <? Z.of_nat (length filteredTokens))%Z then Some (toString e)
        else None
    | JNaN => None
    end in
  {| data := paginatedTokens;
     pagination := {| nextCursor := nextCursor;
                      total := Z.of_nat (length filteredTokens);
                      page_limit := limit |} |}.

Definition getFilteredTokens (up : Upstream) (cache : CacheService.t)
    (query : TokenQuery)
    : result (PaginatedResponse Token) * CacheService.t :=
  let limit := default (JInt 30) (limit query) in
  let cursor := cursor query in
  let sortBy := default "volume"%string (sortBy query) in
  let order := default "desc"%string (order query) in
  let period := default "24h"%string (period query) in
  let search := default ""%string (search query) in
  let minVolume := default 0%float (minVolume query) in
  match resolveTokens up cache search with
  | (Throw e, cache) => (Throw e, cache)
  | (Ok tokens, cache) =>
      let filteredTokens := applyFilters tokens period minVolume in
      let filteredTokens := sortTokens filteredTokens sortBy order in
      (Ok (paginate filteredTokens cursor limit), cache)
  end.



(** [invalidateCache(pattern?)]: an absent or empty pattern stands for
    every key of the aggregator. *)
Definition invalidateCache (glob : string -> string -> bool)
    (cache : CacheService.t) (pattern : option string) : Z * CacheService.t :=
  let deletePattern :=
    match pattern with
    | Some p => if String.eqb p "" then (CACHE_PREFIX ++ "*")%string else p
    | None => (CACHE_PREFIX ++ "*")%string
    end in
  CacheService.deletePattern glob cache deletePattern.

End AggregatorService.

(** ** src/utils/rateLimiter.ts (src/unnamed/part_003)

    [Date.now()] is the argument [now] of the methods that read the clock.
    Each method takes the limiter and returns its result together with the
    limiter it leaves behind. *)
Module RateLimiter.
Import Types.

Record t := mk {
  requestCounts : gmap string RateLimitInfo;
  maxRequests : Z;
  windowMs : Z;
}.

(** [new RateLimiter(maxRequests, windowMs)] *)
Definition create (maxRequests windowMs : Z) : t := mk ∅ maxRequests windowMs.

(** [this.requestCounts.set(identifier, info)], also the effect of
    assigning to a field of the stored [info] object. *)
Definition store (rl : t) (identifier : string) (info : RateLimitInfo) : t :=
  mk (<[identifier := info]> (requestCounts rl)) (maxRequests rl) (windowMs rl).

Definition canMakeRequest (now : Z) (identifier : string) (rl : t) : bool * t :=
  match requestCounts rl !! identifier with
  | None =>
      (true, store rl identifier
               {| requests := 1; windowStart := now; blocked := false |})
  | Some info =>
      if (windowMs rl <=? now - windowStart info)%Z then
        (true, store rl identifier
                 {| requests := 1; windowStart := now; blocked := false |})
      else if (maxRequests rl <=? requests info)%Z then
        (false, store rl identifier
                  {| requests := requests info;
                     windowStart := windowStart info;
                     blocked := true |})
      else
        (true, store rl identifier
                 {| requests := requests info + 1;
                    windowStart := windowStart info;
                    blocked := blocked info |})
  end.

Definition getRemainingRequests (now : Z) (identifier : string) (rl : t)
    : Z * t :=
  match requestCounts rl !! identifier with
  | None => (maxRequests rl, rl)
  | Some info =>
      if (windowMs rl <=? now - windowStart info)%Z then (maxRequests rl, rl)
      else (Z.max 0 (maxRequests rl - requests info), rl)
  end.

Definition getResetTime (now : Z) (identifier : string) (rl : t) : Z * t :=
  match requestCounts rl !! identifier with
  | None => (now, rl)
  | Some info => ((windowStart info + windowMs rl)%Z, rl)
  end.

Definition reset (identifier : string) (rl : t) : t :=
  mk (delete identifier (requestCounts rl)) (maxRequests rl) (windowMs rl).

Definition resetAll (rl : t) : t := mk ∅ (maxRequests rl) (windowMs rl).

(** [cleanup()]: the identifiers whose window started at least two windows
    ago are collected, then deleted one by one. *)
Definition cleanup (now : Z) (rl : t) : t :=
  let toDelete :=
    map fst
      (List.filter
         (fun entry => (windowMs rl * 2 <=? now - windowStart (snd entry))%Z)
         (map_to_list (requestCounts rl))) in
  mk (fold_left (fun counts identifier => delete identifier counts)
                toDelete (requestCounts rl))
     (maxRequests rl) (windowMs rl).



End RateLimiter.

(** ** src/services/websocket.service.ts (its first half)

    Every [io.emit(type, event)] is recorded in [emitted], oldest first;
    the [timestamp] of an event is left out.  Inside one cycle a token
    object is identified by its position in [currentTokens], which is what
    [updates.includes(currentToken)] compares. *)
Module WebSocketService.
Import JS Types.

Inductive WebSocketEvent :=
  | new_token (data : Token)
  | tokens_updated (data : list Token)
  | price_update (data : list PriceUpdateEvent)
  | volume_spike (data : list VolumeSpike).

Record t := mk {
  previousTokenData : gmap string Token;
  updateCount : Z;
  emitted : list WebSocketEvent;
}.

(** [this.io.emit(type, event)] *)
Definition emitEvent (ws : t) (event : WebSocketEvent) : t :=
  mk (previousTokenData ws) (updateCount ws) (emitted ws ++ [event]).

(** [this.previousTokenData.set(token.token_address, { ...token })] *)
Definition remember (ws : t) (token : Token) : t :=
  mk (<[token_address token := token]> (previousTokenData ws))
     (updateCount ws) (emitted ws).

(** The local variables of one call of [fetchAndBroadcastUpdates]. *)
Record Cycle := mkCycle {
  updates : list (nat * Token);
  priceUpdates : list PriceUpdateEvent;
  volumeSpikes : list VolumeSpike;
  hasChanges : bool;
}.

(** [updates.includes(currentToken)] for the token at position [i] *)
Definition includes (updates : list (nat * Token)) (i : nat) : bool :=
  existsb (fun u => Nat.eqb (fst u) i) updates.

(** [0.000000001] and [0.000001], as the binary64 values the literals denote. *)
Definition PRICE_THRESHOLD : number := 0x1.12e0be826d695p-30%float.
Definition VOLUME_THRESHOLD : number := 0x1.0c6f7a0b5ed8dp-20%float.

(** The price comparison of a token against its previous snapshot. *)
Definition checkPrice (c : Cycle) (i : nat) (currentToken previous : Token)
    : Cycle :=
  let priceDiff := Math_abs (price_sol currentToken - price_sol previous) in
  let hasMinimalPriceChange := (PRICE_THRESHOLD <? priceDiff)%float in
  if hasMinimalPriceChange then
    let priceChange :=
      ((price_sol currentToken - price_sol previous) / price_sol previous
       * 100)%float in
    let priceUpdate :=
      {| pu_token_address := token_address currentToken;
         old_price := price_sol previous;
         new_price := price_sol currentToken;
         change_percent := priceChange |} in
    {| updates := updates c ++ [(i, currentToken)];
       priceUpdates := priceUpdates c ++ [priceUpdate];
       volumeSpikes := volumeSpikes c;
       hasChanges := true |}
  else c.

(** The volume comparison that follows it. *)
Definition checkVolume (c : Cycle) (i : nat) (currentToken previous : Token)
    : Cycle :=
  let volumeDiff := Math_abs (volume_sol currentToken - volume_sol previous) in
  let hasMinimalVolumeChange := (VOLUME_THRESHOLD <? volumeDiff)%float in
  if hasMinimalVolumeChange then
    let volumeChange :=
      ((volume_sol currentToken - volume_sol previous) / volume_sol previous
       * 100)%float in
    let c :=
      if (20 <? volumeChange)%float then
        let volumeSpike :=
          {| vs_token_address := token_address currentToken;
             old_volume := volume_sol previous;
             new_volume := volume_sol currentToken;
             spike_percent := volumeChange |} in
        {| updates := updates c;
           priceUpdates := priceUpdates c;
           volumeSpikes := volumeSpikes c ++ [volumeSpike];
           hasChanges := true |}
      else c in
    if negb (includes (updates c) i) then
      {| updates := updates c ++ [(i, currentToken)];
         priceUpdates := priceUpdates c;
         volumeSpikes := volumeSpikes c;
         hasChanges := hasChanges c |}
    else c
  else c.

(** The body of the [for] loop over [currentTokens]. *)
Definition processToken (st : t * Cycle) (entry : nat * Token) : t * Cycle :=
  let '(ws, c) := st in
  let '(i, currentToken) := entry in
  if String.eqb (token_address currentToken) "" then st
  else
    match previousTokenData ws !! token_address currentToken with
    | None =>
        let c := {| updates := updates c ++ [(i, currentToken)];
                    priceUpdates := priceUpdates c;
                    volumeSpikes := volumeSpikes c;
                    hasChanges := true |} in
        let ws := emitEvent ws (new_token currentToken) in
        (remember ws currentToken, c)
    | Some previous =>
        let c := checkPrice c i currentToken previous in
        let c := checkVolume c i currentToken previous in
        (remember ws currentToken, c)
    end.

(** The batches as they are declared before the loop. *)
Definition emptyCycle : Cycle :=
  {| updates := []; priceUpdates := []; volumeSpikes := [];
     hasChanges := false |}.

(** The [for] loop over [currentTokens], each token with its position. *)
Definition runLoop (ws : t) (currentTokens : list Token) : t * Cycle :=
  fold_left processToken
    (combine (seq 0 (length currentTokens)) currentTokens)
    (ws, emptyCycle).

(** The three conditional broadcasts that follow the loop. *)
Definition broadcast (ws : t) (c : Cycle) : t :=
  let ws := if (0 <? length (updates c))%nat
            then emitEvent ws (tokens_updated (map snd (updates c))) else ws in
  let ws := if (0 <? length (priceUpdates c))%nat
            then emitEvent ws (price_update (priceUpdates c)) else ws in
  let ws := if (0 <? length (volumeSpikes c))%nat
            then emitEvent ws (volume_spike (volumeSpikes c)) else ws in
  ws.

(** What [fetchAndBroadcastUpdates] does with the fetched tokens. *)
Definition detectChanges (ws : t) (currentTokens : list Token) : t :=
  let '(ws, c) := runLoop ws currentTokens in
  broadcast ws c.

Definition fetchAndBroadcastUpdates (up : AggregatorService.Upstream)
    (cache : CacheService.t) (ws : t) : t * CacheService.t :=
  let ws := mk (previousTokenData ws) (updateCount ws + 1) (emitted ws) in
  let query :=
    {| limit := Some (JInt 50); cursor := None;
       sortBy := Some "volume"%string; order := Some "desc"%string;
       period := None; search := None; minVolume := None |} in
  match AggregatorService.getFilteredTokens up cache query with
  | (Throw _, cache) => (ws, cache)
  | (Ok tokens, cache) => (detectChanges ws (data tokens), cache)
  end.

End WebSocketService.

(** ** src/controllers/token.controller.ts

    A query parameter is a string or absent.  [parseFloat] is the
    JavaScript built-in. *)
Module TokenController.
Import JS Types.

(** [req.query] of [GET /api/tokens]. *)
Record Query := mkQuery {
  limit : option string;
  cursor : option string;
  sortBy : option string;
  order : option string;
  period : option string;
  search : option string;
  minVolume : option string;
}.

(** [new AppError(statusCode, code, message)] *)
Record AppError := mkAppError {
  statusCode : Z;
  code : string;
  message : string;
}.

(** What the handler hands over: [next(error)] or [res.json(response)]. *)
Inductive Response :=
  | next_AppError (error : AppError)
  | next_Error (error : string)
  | res_json (data : PaginatedResponse Token).

(** [allowed.includes(s)] *)
Definition one_of (allowed : list string) (s : string) : bool :=
  existsb (String.eqb s) allowed.

Section WithParseFloat.
Variable parseFloat : string -> number.

(** The statements of [getTokens] up to the call of the aggregator: the
    [AppError] thrown, or the [TokenQuery] the aggregator is called with. *)
Definition validateQuery (q : Query) : AppError + TokenQuery :=
  let limit := default "30"%string (limit q) in
  let sortBy := default "volume"%string (sortBy q) in
  let order := default "desc"%string (order q) in
  let period := default "24h"%string (period q) in
  let search := default ""%string (search q) in
  let minVolume := default "0"%string (minVolume q) in
  let parsedLimit := parseInt limit in
  let parsedMinVolume := parseFloat minVolume in
  if lt_int parsedLimit 1 || gt_int parsedLimit 100 then
    inl (mkAppError 400 "INVALID_LIMIT" "Limit must be between 1 and 100")
  else if negb (one_of ["volume"; "price_change"; "market_cap"; "liquidity"]%string sortBy) then
    inl (mkAppError 400 "INVALID_SORT_BY" "Invalid sortBy parameter")
  else if negb (one_of ["asc"; "desc"]%string order) then
    inl (mkAppError 400 "INVALID_ORDER" "Order must be asc or desc")
  else if negb (one_of ["1h"; "24h"; "7d"]%string period) then
    inl (mkAppError 400 "INVALID_PERIOD" "Period must be 1h, 24h, or 7d")
  else
    inr {| Types.limit := Some parsedLimit;
           Types.cursor := cursor q;
           Types.sortBy := Some sortBy;
           Types.order := Some order;
           Types.period := Some period;
           Types.search := Some search;
           Types.minVolume := Some parsedMinVolume |}.

Definition getTokens (up : AggregatorService.Upstream) (cache : CacheService.t)
    (q : Query) : Response * CacheService.t :=
  match validateQuery q with
  | inl error => (next_AppError error, cache)
  | inr query =>
      match AggregatorService.getFilteredTokens up cache query with
      | (Throw error, cache) => (next_Error error, cache)
      | (Ok result, cache) => (res_json result, cache)
      end
  end.

End WithParseFloat.

End TokenController.

(** ** Vocabulary of the properties

    Notions the properties below are stated and proved with: terms of the
    specification (the index range of a page, the fields a merge copies),
    the invariants of the two loops, and runs of the rate limiter. *)
Module Spec.
Import JS Types.

(** A zero of either sign. *)
Definition SFis_zero (x : spec_float) : bool :=
  match x with S754_zero _ => true | _ => false end.

(** The fields the merge copies from its base record. *)
Definition same_descriptive_fields (r base : Token) : Prop :=
  token_address r = token_address base /\
  token_name r = token_name base /\
  token_ticker r = token_ticker base /\
  price_sol r = price_sol base /\
  market_cap_sol r = market_cap_sol base /\
  price_1hr_change r = price_1hr_change base /\
  price_24hr_change r = price_24hr_change base /\
  price_7d_change r = price_7d_change base /\
  protocol r = protocol base /\
  dex_id r = dex_id base /\
  pair_address r = pair_address base /\
  price_usd r = price_usd base /\
  fdv r = fdv base.

(** [t] with its volume counted twice and its timestamp defaulted. *)
Definition self_merged (t : Token) : Token :=
  {| token_address := token_address t;
     token_name := token_name t;
     token_ticker := token_ticker t;
     price_sol := price_sol t;
     market_cap_sol := market_cap_sol t;
     volume_sol := (volume_sol t + volume_sol t)%float;
     liquidity_sol := liquidity_sol t;
     transaction_count := transaction_count t;
     price_1hr_change := price_1hr_change t;
     price_24hr_change := price_24hr_change t;
     price_7d_change := price_7d_change t;
     protocol := protocol t;
     dex_id := dex_id t;
     pair_address := pair_address t;
     price_usd := price_usd t;
     fdv := fdv t;
     last_updated := Some (or_else (last_updated t) 0%float) |}.

(** The loop invariant of [mergeAndDeduplicateTokens]: the keys of the map
    are distinct and each entry is filed under its lower-cased address. *)
Definition keyed_by_address (tokenMap : Map Token) : Prop :=
  NoDup (map fst tokenMap) /\
  Forall (fun kv => toLowerCase (token_address (snd kv)) = fst kv) tokenMap.

(** The slice [[lo, hi)] of a list, in the words of the specification: the
    elements whose index [i] satisfies [lo <= i < hi], in order.  [i] is
    the index of the head of [l]. *)
Fixpoint index_range_from {A} (i : Z) (l : list A) (lo hi : Z) : list A :=
  match l with
  | [] => []
  | x :: r =>
      if ((lo <=? i) && (i <? hi))%Z
      then x :: index_range_from (i + 1)%Z r lo hi
      else index_range_from (i + 1)%Z r lo hi
  end.

Definition index_range {A} (l : list A) (lo hi : Z) : list A :=
  index_range_from 0%Z l lo hi.

(** Every entry of the three batches of [c] is in the batches of [c']. *)
Definition batches_grow (c c' : WebSocketService.Cycle) : Prop :=
  incl (WebSocketService.updates c) (WebSocketService.updates c') /\
  incl (WebSocketService.priceUpdates c) (WebSocketService.priceUpdates c') /\
  incl (WebSocketService.volumeSpikes c) (WebSocketService.volumeSpikes c').

(** Every token in the batch of updated tokens sits at a position below
    [n] of the fetched list. *)
Definition indices_below (n : nat) (c : WebSocketService.Cycle) : Prop :=
  Forall (fun u => (fst u < n)%nat) (WebSocketService.updates c).

(** A run of admission checks for one identifier, one per clock reading:
    the answers in order and the limiter left behind. *)
Fixpoint canMakeRequests (times : list Z) (identifier : string)
    (rl : RateLimiter.t) : list bool * RateLimiter.t :=
  match times with
  | [] => ([], rl)
  | now :: rest =>
      let '(b, rl) := RateLimiter.canMakeRequest now identifier rl in
      let '(bs, rl) := canMakeRequests rest identifier rl in
      (b :: bs, rl)
  end.

(** The value of a result, if it is one. *)
Definition result_value {A} (r : result A) : option A :=
  match r with Ok v => Some v | Throw _ => None end.


(** The keys of a list in the order in which they are first seen. *)
Definition first_seen (keys : list string) : list string :=
  fold_left (fun seen key => if bool_decide (key ∈ seen) then seen
                             else seen ++ [key]) keys [].


(** The lower-cased address a token is filed under. *)
Definition address_key (t : Token) : string := toLowerCase (token_address t).

End Spec.

(** ** Sample data

    Concrete records, upstreams and services on which the properties are
    evaluated. *)
Module Samples.
Import JS Types AggregatorService.
Local Open Scope float_scope.

(** Two records for one address, neither with a positive price. *)
Definition unpriced_first : Token :=
  {| token_address := "So11111111111111111111111111111111111111112";
     token_name := "first"; token_ticker := "ONE";
     price_sol := 0; market_cap_sol := 0; volume_sol := 1;
     liquidity_sol := 2; transaction_count := 3;
     price_1hr_change := None; price_24hr_change := None;
     price_7d_change := None; protocol := "raydium";
     dex_id := None; pair_address := None; price_usd := None; fdv := None;
     last_updated := Some 10 |}.

Definition unpriced_second : Token :=
  {| token_address := "So11111111111111111111111111111111111111112";
     token_name := "second"; token_ticker := "TWO";
     price_sol := 0; market_cap_sol := 0; volume_sol := 4;
     liquidity_sol := 1; transaction_count := 5;
     price_1hr_change := None; price_24hr_change := None;
     price_7d_change := None; protocol := "orca";
     dex_id := None; pair_address := None; price_usd := None; fdv := None;
     last_updated := Some 20 |}.

(** A record with volume 100. *)
Definition hundred : Token :=
  {| token_address := "So11111111111111111111111111111111111111112";
     token_name := "Wrapped SOL"; token_ticker := "SOL";
     price_sol := 1; market_cap_sol := 1000; volume_sol := 100;
     liquidity_sol := 50; transaction_count := 7;
     price_1hr_change := Some 1; price_24hr_change := Some 2;
     price_7d_change := None; protocol := "raydium";
     dex_id := Some "raydium"%string; pair_address := None;
     price_usd := Some 150; fdv := None;
     last_updated := Some 1700000000000 |}.

(** The reading that follows [hundred]: same price, volume 125. *)
Definition hundred_now : Token :=
  {| token_address := "So11111111111111111111111111111111111111112";
     token_name := "Wrapped SOL"; token_ticker := "SOL";
     price_sol := 1; market_cap_sol := 1000; volume_sol := 125;
     liquidity_sol := 50; transaction_count := 9;
     price_1hr_change := Some 1; price_24hr_change := Some 2;
     price_7d_change := None; protocol := "raydium";
     dex_id := Some "raydium"%string; pair_address := None;
     price_usd := Some 150; fdv := None;
     last_updated := Some 1700000030000 |}.

(** Two DexScreener pairs of one base token, as [transformPairsToTokens]
    returns them: one record per pair. *)
Definition pair_on_raydium : Token :=
  {| token_address := "So11111111111111111111111111111111111111112";
     token_name := "Wrapped SOL"; token_ticker := "SOL";
     price_sol := 1; market_cap_sol := 1000; volume_sol := 300;
     liquidity_sol := 50; transaction_count := 7;
     price_1hr_change := Some 1; price_24hr_change := Some 2;
     price_7d_change := None; protocol := "raydium";
     dex_id := Some "raydium"%string; pair_address := Some "pairA"%string;
     price_usd := Some 150; fdv := None;
     last_updated := Some 1700000000000 |}.

Definition pair_on_orca : Token :=
  {| token_address := "So11111111111111111111111111111111111111112";
     token_name := "Wrapped SOL"; token_ticker := "SOL";
     price_sol := 1; market_cap_sol := 1000; volume_sol := 200;
     liquidity_sol := 40; transaction_count := 5;
     price_1hr_change := Some 1; price_24hr_change := Some 2;
     price_7d_change := None; protocol := "orca";
     dex_id := Some "orca"%string; pair_address := Some "pairB"%string;
     price_usd := Some 150; fdv := None;
     last_updated := Some 1700000000000 |}.

(** Three tokens ranked by volume: 300, 200 and 100. *)
Definition ranked_first : Token :=
  {| token_address := "DezXAZ8z7PnrnRJjz3wXBoRgixCa6xjnB7YaB1pPB263";
     token_name := "Bonk"; token_ticker := "BONK";
     price_sol := 1; market_cap_sol := 1000; volume_sol := 300;
     liquidity_sol := 50; transaction_count := 7;
     price_1hr_change := Some 1; price_24hr_change := Some 2;
     price_7d_change := None; protocol := "raydium";
     dex_id := Some "raydium"%string; pair_address := None;
     price_usd := Some 150; fdv := None;
     last_updated := Some 1700000000000 |}.

Definition ranked_second : Token :=
  {| token_address := "EKpQGSJtjMFqKZ9KQanSqYXRcF8fBopzLHYxdM65zcjm";
     token_name := "dogwifhat"; token_ticker := "WIF";
     price_sol := 1; market_cap_sol := 1000; volume_sol := 200;
     liquidity_sol := 50; transaction_count := 7;
     price_1hr_change := Some 1; price_24hr_change := Some 2;
     price_7d_change := None; protocol := "raydium";
     dex_id := Some "raydium"%string; pair_address := None;
     price_usd := Some 150; fdv := None;
     last_updated := Some 1700000000000 |}.

Definition ranked_third : Token := hundred.

(** A record for which no source reported a change over any period. *)
Definition no_changes : Token :=
  {| token_address := "JUPyiwrYJFskUPiHa7hkeR8VUtAeFoSYbKedZNsDvCN";
     token_name := "Jupiter"; token_ticker := "JUP";
     price_sol := 1; market_cap_sol := 1000; volume_sol := 10;
     liquidity_sol := 50; transaction_count := 7;
     price_1hr_change := None; price_24hr_change := None;
     price_7d_change := None; protocol := "jupiter";
     dex_id := None; pair_address := None; price_usd := None; fdv := None;
     last_updated := None |}.

(** A cache that cannot be reached, and one that is reachable and empty. *)
Definition disconnected : CacheService.t :=
  {| CacheService.isConnected := false; CacheService.client := ∅ |}.

Definition connected_empty : CacheService.t :=
  {| CacheService.isConnected := true; CacheService.client := ∅ |}.

(** An upstream whose DexScreener search fails while Jupiter answers. *)
Definition dex_down : Upstream :=
  {| dexScreenerAPI_searchTokens := fun _ => rejected "timeout of 10000ms exceeded";
     jupiterAPI_searchTokens := fun _ => fulfilled [hundred] |}.

(** An upstream that reports the two pairs. *)
Definition two_pairs : Upstream :=
  {| dexScreenerAPI_searchTokens := fun _ => fulfilled [pair_on_raydium; pair_on_orca];
     jupiterAPI_searchTokens := fun _ => fulfilled [] |}.

(** An upstream that reports the three ranked tokens, lowest volume
    first. *)
Definition three_ranked : Upstream :=
  {| dexScreenerAPI_searchTokens := fun _ =>
       fulfilled [ranked_third; ranked_first; ranked_second];
     jupiterAPI_searchTokens := fun _ => fulfilled [] |}.

(** An upstream that reports [no_changes] alone. *)
Definition reads_no_changes : Upstream :=
  {| dexScreenerAPI_searchTokens := fun _ => fulfilled [no_changes];
     jupiterAPI_searchTokens := fun _ => fulfilled [] |}.

(** An upstream that reports [hundred_now] alone. *)
Definition reads_hundred_now : Upstream :=
  {| dexScreenerAPI_searchTokens := fun _ => fulfilled [hundred_now];
     jupiterAPI_searchTokens := fun _ => fulfilled [] |}.

(** The query [{}]. *)
Definition no_parameters : TokenQuery :=
  {| limit := None; cursor := None; sortBy := None; order := None;
     period := None; search := None; minVolume := None |}.

(** A service whose only snapshot is [hundred]. *)
Definition saw_hundred : WebSocketService.t :=
  {| WebSocketService.previousTokenData :=
       {[ token_address hundred := hundred ]};
     WebSocketService.updateCount := 1%Z;
     WebSocketService.emitted := [] |}.

(** The request [GET /api/tokens?limit=...] with no other parameter. *)
Definition only_limit (limit : string) : TokenController.Query :=
  {| TokenController.limit := Some limit;
     TokenController.cursor := None;
     TokenController.sortBy := None;
     TokenController.order := None;
     TokenController.period := None;
     TokenController.search := None;
     TokenController.minVolume := None |}.

(** A key listing in which a final [*] matches any rest and every other
    character matches itself. *)
Fixpoint star_glob (pattern key : string) : bool :=
  match pattern with
  | EmptyString => String.eqb key ""
  | String "*" EmptyString => true
  | String c p =>
      match key with
      | String d k => Ascii.eqb c d && star_glob p k
      | EmptyString => false
      end
  end.

Definition holds_two_searches : CacheService.t :=
  CacheService.mk true
    (<["aggregated:search:sol" := [hundred]]>
       (<["aggregated:popular" := [ranked_first]]> ∅)).

(** An upstream whose DexScreener search fails while Jupiter lists one
    token with a daily volume. *)
Definition jupiter_only : Upstream :=
  {| dexScreenerAPI_searchTokens := fun _ => rejected "timeout";
     jupiterAPI_searchTokens := fun _ =>
       fulfilled (JupiterAPI.transformJupiterTokens 0%float
         [ {| JupiterAPI.address := "So11";
              JupiterAPI.name := "Wrapped SOL";
              JupiterAPI.symbol := "SOL";
              JupiterAPI.daily_volume := Some 100%float |} ]) |}.



End Samples.

(* ===================================================================== *)
(** * Part II: properties                                                 *)
(* ===================================================================== *)

(** ** Facts about binary64 arithmetic

    [+] and [Math.max] do not depend on the order of their arguments, and
    [Math.max x x] is [x].  They are derived from the specification of the
    primitive operations on [spec_float]. *)
Section FloatFacts.
Import JS Spec.
Local Open Scope float_scope.

Lemma SFadd_comm prec emax (x y : spec_float) :
  SFadd prec emax x y = SFadd prec emax y x.
Proof.
  destruct x as [sx|sx| |sx mx ex], y as [sy|sy| |sy my ey]; simpl;
    try reflexivity; try (destruct sx, sy; reflexivity).
  rewrite (Z.min_comm ey ex). f_equal. apply Z.add_comm.
Qed.

Lemma float_add_comm (x y : float) : x + y = y + x.
Proof.
  apply Prim2SF_inj. rewrite !FloatAxioms.add_spec. apply SFadd_comm.
Qed.

Lemma SFcompare_antisym (x y : spec_float) :
  SFcompare y x = option_map CompOpp (SFcompare x y).
Proof.
  destruct x as [sx|sx| |sx mx ex], y as [sy|sy| |sy my ey]; simpl;
    try reflexivity; try (destruct sx; reflexivity);
    try (destruct sy; reflexivity); try (destruct sx, sy; reflexivity).
  destruct sx, sy; simpl; try reflexivity;
    rewrite (Z.compare_antisym ex ey); destruct (ex ?= ey)%Z; simpl;
    try reflexivity;
    change (PosDef.Pos.compare_cont Eq) with (Pos.compare_cont Eq);
    rewrite (Pos.compare_cont_antisym mx my Eq); reflexivity.
Qed.

Lemma SFcompare_Eq (x y : spec_float) :
  SFcompare x y = Some Eq -> x = y \/ (SFis_zero x = true /\ SFis_zero y = true).
Proof.
  destruct x as [sx|sx| |sx mx ex], y as [sy|sy| |sy my ey]; simpl;
    try discriminate; try (destruct sx; discriminate);
    try (destruct sy; discriminate); auto.
  - destruct sx, sy; try discriminate; auto.
  - destruct sx, sy; try discriminate;
      destruct (ex ?= ey)%Z eqn:He; try discriminate;
      apply Z.compare_eq in He; subst ey; intros H; left; f_equal;
      apply Pos.compare_eq.
    + injection H as H. unfold Pos.compare. destruct (Pos.compare_cont Eq mx my); simpl in *; congruence.
    + injection H as H. exact H.
Qed.

Lemma SFcompare_refl (x : spec_float) :
  x <> S754_nan -> SFcompare x x = Some Eq.
Proof.
  destruct x as [s|s| |s m e]; simpl; try congruence; intros _.
  - destruct s; reflexivity.
  - rewrite Z.compare_refl.
    change (PosDef.Pos.compare_cont Eq m m) with (Pos.compare m m).
    rewrite Pos.compare_refl. destruct s; reflexivity.
Qed.

Lemma is_nan_spec (a : float) :
  is_nan a = match Prim2SF a with S754_nan => true | _ => false end.
Proof.
  unfold is_nan. rewrite FloatAxioms.eqb_spec. unfold SFeqb.
  destruct (Prim2SF a) as [s|s| |s m e] eqn:E; try reflexivity;
    rewrite SFcompare_refl by discriminate; reflexivity.
Qed.

Lemma is_nan_true (a : float) : is_nan a = true -> a = PrimFloat.nan.
Proof.
  rewrite is_nan_spec. intros H. apply Prim2SF_inj.
  destruct (Prim2SF a); try discriminate. reflexivity.
Qed.

Lemma neg_infinity_least (a : float) :
  is_nan a = false ->
  (if PrimFloat.neg_infinity <? a then a else PrimFloat.neg_infinity) = a.
Proof.
  rewrite is_nan_spec. intros Ha.
  destruct (PrimFloat.neg_infinity <? a) eqn:Hlt; [reflexivity|].
  apply Prim2SF_inj. rewrite FloatAxioms.ltb_spec in Hlt.
  change (Prim2SF PrimFloat.neg_infinity) with (S754_infinity true) in *.
  destruct (Prim2SF a) as [s|s| |s m e]; try discriminate.
  - destruct s; [reflexivity|discriminate].
Qed.

Lemma Math_max_unfold (a b : float) :
  Math_max a b =
  if is_nan a then PrimFloat.nan
  else if is_nan b then PrimFloat.nan
  else
    let h := match classify b, classify a with
             | PZero, NZero => PrimFloat.zero
             | _, _ => a
             end in
    if h <? b then b else h.
Proof.
  unfold Math_max, max_loop.
  destruct (is_nan a) eqn:Ha; [reflexivity|].
  change (classify PrimFloat.neg_infinity) with NInf. cbv zeta.
  destruct (classify a) eqn:Ca; cbv iota;
    rewrite !(neg_infinity_least a Ha), ?Ca; reflexivity.
Qed.

Lemma classify_PZero (a : float) : classify a = PZero -> a = PrimFloat.zero.
Proof.
  rewrite FloatAxioms.classify_spec. intros H. apply Prim2SF_inj.
  change (Prim2SF PrimFloat.zero) with (S754_zero false).
  unfold SF64classify, SFclassify in H.
  destruct (Prim2SF a) as [s|s| |s m e].
  - destruct s; [discriminate|reflexivity].
  - destruct s; discriminate.
  - discriminate.
  - destruct s; destruct (Z.pos (digits2_pos m) =? prec)%Z; discriminate.
Qed.

Lemma classify_NZero (a : float) : classify a = NZero -> a = PrimFloat.neg_zero.
Proof.
  rewrite FloatAxioms.classify_spec. intros H. apply Prim2SF_inj.
  change (Prim2SF PrimFloat.neg_zero) with (S754_zero true).
  unfold SF64classify, SFclassify in H.
  destruct (Prim2SF a) as [s|s| |s m e].
  - destruct s; [reflexivity|discriminate].
  - destruct s; discriminate.
  - discriminate.
  - destruct s; destruct (Z.pos (digits2_pos m) =? prec)%Z; discriminate.
Qed.

Lemma classify_zero_iff (a : float) :
  SFis_zero (Prim2SF a) = true <-> (classify a = PZero \/ classify a = NZero).
Proof.
  rewrite FloatAxioms.classify_spec. unfold SF64classify, SFclassify.
  destruct (Prim2SF a) as [s|s| |s m e]; cbn [SFis_zero].
  - destruct s; split; auto.
  - destruct s; (split; [discriminate|intros [H|H]; discriminate H]).
  - split; [discriminate|intros [H|H]; discriminate H].
  - destruct s; destruct (Z.pos (digits2_pos m) =? prec)%Z;
      (split; [discriminate|intros [H|H]; discriminate H]).
Qed.

Lemma ltb_asym (a b : float) : (a <? b) = true -> (b <? a) = false.
Proof.
  rewrite !FloatAxioms.ltb_spec. unfold SFltb.
  rewrite (SFcompare_antisym (Prim2SF a) (Prim2SF b)).
  destruct (SFcompare (Prim2SF a) (Prim2SF b)) as [[]|]; simpl; congruence.
Qed.

Lemma ltb_irrefl (a : float) : (a <? a) = false.
Proof.
  destruct (a <? a) eqn:H; [|reflexivity].
  pose proof (ltb_asym _ _ H). congruence.
Qed.

(** Two numbers neither of which is NaN or below the other are equal, up
    to the sign of zero. *)
Lemma ltb_total (a b : float) :
  is_nan a = false -> is_nan b = false ->
  (a <? b) = false -> (b <? a) = false ->
  a = b \/ (SFis_zero (Prim2SF a) = true /\ SFis_zero (Prim2SF b) = true).
Proof.
  rewrite !is_nan_spec, !FloatAxioms.ltb_spec. unfold SFltb.
  rewrite (SFcompare_antisym (Prim2SF a) (Prim2SF b)).
  intros Ha Hb H1 H2.
  destruct (SFcompare (Prim2SF a) (Prim2SF b)) as [[]|] eqn:E;
    simpl in *; try discriminate.
  - apply SFcompare_Eq in E as [E|E]; [left; apply Prim2SF_inj, E|right; exact E].
  - destruct (Prim2SF a), (Prim2SF b); simpl in E; discriminate.
Qed.

Lemma zero_ltb_zero (a b : float) :
  SFis_zero (Prim2SF a) = true -> SFis_zero (Prim2SF b) = true ->
  (a <? b) = false.
Proof.
  rewrite FloatAxioms.ltb_spec. destruct (Prim2SF a), (Prim2SF b); try discriminate.
  reflexivity.
Qed.

Lemma Math_max_idem (a : float) : Math_max a a = a.
Proof.
  rewrite Math_max_unfold.
  destruct (is_nan a) eqn:Ha; [symmetry; apply is_nan_true, Ha|].
  cbv zeta.
  replace (match classify a with PZero => match classify a with
             | NZero => PrimFloat.zero | _ => a end | _ => a end) with a.
  - rewrite ltb_irrefl. reflexivity.
  - destruct (classify a) eqn:E; reflexivity.
Qed.

Lemma Math_max_comm (a b : float) : Math_max a b = Math_max b a.
Proof.
  rewrite !Math_max_unfold.
  destruct (is_nan a) eqn:Ha, (is_nan b) eqn:Hb; try reflexivity.
  cbv zeta.
  destruct (a <? b) eqn:Hab.
  - pose proof (ltb_asym _ _ Hab) as Hba.
    assert (Hz : ~ (SFis_zero (Prim2SF a) = true /\ SFis_zero (Prim2SF b) = true)).
    { intros [Za Zb]. rewrite (zero_ltb_zero a b Za Zb) in Hab. discriminate. }
    rewrite !classify_zero_iff in Hz.
    destruct (classify a) eqn:Ca, (classify b) eqn:Cb;
      try rewrite Hab; try rewrite Hba; try reflexivity;
      exfalso; apply Hz; auto.
  - destruct (b <? a) eqn:Hba.
    + assert (Hz : ~ (SFis_zero (Prim2SF a) = true /\ SFis_zero (Prim2SF b) = true)).
      { intros [Za Zb]. rewrite (zero_ltb_zero b a Zb Za) in Hba. discriminate. }
      rewrite !classify_zero_iff in Hz.
      destruct (classify a) eqn:Ca, (classify b) eqn:Cb;
        try rewrite Hab; try rewrite Hba; try reflexivity;
        exfalso; apply Hz; auto.
    + destruct (ltb_total a b Ha Hb Hab Hba) as [->|[Za Zb]]; [reflexivity|].
      rewrite classify_zero_iff in Za, Zb.
      destruct Za as [Ca|Ca], Zb as [Cb|Cb]; rewrite Ca, Cb;
        try rewrite Hab; try rewrite Hba;
        try rewrite (classify_PZero a Ca); try rewrite (classify_PZero b Cb);
        try rewrite ltb_irrefl; try reflexivity.
      rewrite (classify_NZero a Ca), (classify_NZero b Cb). reflexivity.
Qed.
End FloatFacts.


(** ** AggregatorService: the pairwise merge *)
Section Merge.
Import JS Types AggregatorService Spec Samples.
Local Open Scope float_scope.

(** C1, as stated, fails: when neither record has a positive price the
    descriptive fields of the merge come from the second record, not from
    the first. *)
Lemma mergeTokenData_neither_positive_takes_second :
  token_address unpriced_first = token_address unpriced_second /\
  (0 <? price_sol unpriced_first) = false /\
  (0 <? price_sol unpriced_second) = false /\
  token_name <$> mergeTokenData (Some unpriced_first) (Some unpriced_second)
    = Some (token_name unpriced_second) /\
  token_name unpriced_second <> token_name unpriced_first.
Proof.
  repeat split; try reflexivity. discriminate.
Qed.

(** C1 (amended): the merge of two records sums their volumes, takes the
    maximum of their liquidity and of their transaction count, sets
    [last_updated] to the maximum of the two timestamps (an absent one
    counting as 0), and copies every other field from the first record
    when its price is positive and from the second record otherwise. *)
Theorem mergeTokenData_fields (t1 t2 : Token) :
  exists r,
    mergeTokenData (Some t1) (Some t2) = Some r /\
    volume_sol r = volume_sol t1 + volume_sol t2 /\
    liquidity_sol r = Math_max (liquidity_sol t1) (liquidity_sol t2) /\
    transaction_count r =
      Math_max (transaction_count t1) (transaction_count t2) /\
    last_updated r =
      Some (Math_max (or_else (last_updated t1) 0)
                     (or_else (last_updated t2) 0)) /\
    same_descriptive_fields r (if 0 <? price_sol t1 then t1 else t2).
Proof.
  unfold mergeTokenData, same_descriptive_fields.
  destruct (0 <? price_sol t1); eexists; (split; [reflexivity|]);
    cbn -[Math_max or_else].
  - repeat split; reflexivity.
  - rewrite (float_add_comm (volume_sol t2)).
    rewrite (Math_max_comm (liquidity_sol t2)).
    rewrite (Math_max_comm (transaction_count t2)).
    rewrite (Math_max_comm (or_else (last_updated t2) 0)).
    repeat split; reflexivity.
Qed.

(** C2, as stated, fails: a record that occurs twice in the input of
    [mergeAndDeduplicateTokens] is merged with itself and its volume is
    counted twice. *)
Lemma merge_with_itself_doubles_volume :
  volume_sol <$> mergeTokenData (Some hundred) (Some hundred) = Some 200 /\
  map volume_sol (mergeAndDeduplicateTokens [hundred; hundred]) = [200] /\
  mergeTokenData (Some hundred) (Some hundred) <> Some hundred.
Proof.
  repeat split; try reflexivity.
  intros H. apply (f_equal (fmap volume_sol)) in H. vm_compute in H.
  discriminate H.
Qed.

Lemma mergeTokenData_self (t : Token) :
  mergeTokenData (Some t) (Some t) = Some (self_merged t).
Proof.
  unfold mergeTokenData, self_merged.
  destruct (0 <? price_sol t); rewrite !Math_max_idem; reflexivity.
Qed.

(** C2 (amended): merging a record with itself, as
    [mergeAndDeduplicateTokens] does for a record listed twice, keeps every
    field except [volume_sol], which becomes twice the record's volume, and
    [last_updated], which becomes the record's timestamp or 0 when it has
    none. *)
Theorem merge_with_itself (t : Token) :
  mergeTokenData (Some t) (Some t) = Some (self_merged t) /\
  mergeAndDeduplicateTokens [t; t] = [self_merged t] /\
  volume_sol (self_merged t) = volume_sol t + volume_sol t /\
  same_descriptive_fields (self_merged t) t /\
  liquidity_sol (self_merged t) = liquidity_sol t /\
  transaction_count (self_merged t) = transaction_count t.
Proof.
  split; [apply mergeTokenData_self|].
  split; [|repeat split; reflexivity].
  unfold mergeAndDeduplicateTokens, merge_step. cbn [fold_left].
  unfold Map_has. cbn [Map_get Map_set negb].
  rewrite String.eqb_refl. cbn [negb].
  rewrite mergeTokenData_self. reflexivity.
Qed.

(** Merging in either order gives the same volume, the sum of the two. *)
Theorem mergeTokenData_volume_commutes (a b : Token) :
  volume_sol <$> mergeTokenData (Some a) (Some b)
    = Some (volume_sol a + volume_sol b) /\
  volume_sol <$> mergeTokenData (Some b) (Some a)
    = Some (volume_sol a + volume_sol b).
Proof.
  unfold mergeTokenData.
  destruct (0 <? price_sol a), (0 <? price_sol b); cbn;
    rewrite ?(float_add_comm (volume_sol b) (volume_sol a)); split; reflexivity.
Qed.

End Merge.

(** ** AggregatorService: one record per lower-cased address *)
Section Dedup.
Import JS Types AggregatorService Spec.

Lemma Map_get_None {V} (m : Map V) (key : string) :
  Map_get m key = None <-> key ∉ map fst m.
Proof.
  induction m as [|[k v] m IH]; cbn.
  - split; [intros _; apply not_elem_of_nil|reflexivity].
  - rewrite not_elem_of_cons. destruct (String.eqb_spec k key) as [->|Hne].
    + split; [discriminate|intros [H _]; congruence].
    + rewrite IH. split; [intros H; split; [congruence|exact H]|intros [_ H]; exact H].
Qed.

Lemma Map_has_false {V} (m : Map V) (key : string) :
  Map_has m key = false <-> key ∉ map fst m.
Proof.
  unfold Map_has. rewrite <- Map_get_None.
  destruct (Map_get m key); split; congruence.
Qed.

Lemma Map_set_keys {V} (m : Map V) (key : string) (v : V) :
  map fst (Map_set m key v) =
  if Map_has m key then map fst m else map fst m ++ [key].
Proof.
  induction m as [|[k x] m IH]; cbn; [reflexivity|].
  unfold Map_has in *. cbn.
  destruct (String.eqb k key); cbn; [reflexivity|].
  rewrite IH. destruct (Map_get m key); reflexivity.
Qed.

Lemma Map_set_Forall {V} (P : string * V -> Prop) (m : Map V) key v :
  Forall P m -> P (key, v) -> Forall P (Map_set m key v).
Proof.
  intros Hm Hv. induction Hm as [|[k x] m Hx Hm IH]; cbn.
  - constructor; [exact Hv|constructor].
  - destruct (String.eqb_spec k key) as [->|Hne]; constructor; auto.
Qed.

Lemma Map_get_Forall {V} (P : string * V -> Prop) (m : Map V) key v :
  Forall P m -> Map_get m key = Some v -> P (key, v).
Proof.
  intros Hm. induction Hm as [|[k x] m Hx Hm IH]; cbn; [discriminate|].
  destruct (String.eqb_spec k key) as [->|Hne]; [|exact IH].
  intros [= ->]. exact Hx.
Qed.

Lemma Map_set_not_nil {V} (m : Map V) key (v : V) : Map_set m key v <> [].
Proof. destruct m as [|[k x] m]; cbn; [|destruct (String.eqb k key)]; discriminate. Qed.

Lemma mergeTokenData_address (t1 t2 r : Token) :
  mergeTokenData (Some t1) (Some t2) = Some r ->
  token_address r = token_address t1 \/ token_address r = token_address t2.
Proof.
  unfold mergeTokenData.
  destruct (0 <? price_sol t1)%float; intros [= <-]; cbn; auto.
Qed.

Lemma merge_step_keyed (tokenMap : Map Token) (token : Token) :
  keyed_by_address tokenMap -> keyed_by_address (merge_step tokenMap token).
Proof.
  intros [Hnd Hall]. unfold merge_step.
  set (key := toLowerCase (token_address token)).
  destruct (Map_has tokenMap key) eqn:Hhas; cbn [negb].
  - destruct (Map_get tokenMap key) as [existing|] eqn:Hget.
    + destruct (mergeTokenData (Some existing) (Some token)) as [merged|] eqn:Hm;
        [|split; assumption].
      split.
      * rewrite Map_set_keys, Hhas. exact Hnd.
      * apply Map_set_Forall; [exact Hall|]. cbn.
        pose proof (Map_get_Forall _ _ _ _ Hall Hget) as He. cbn in He.
        apply mergeTokenData_address in Hm as [-> | ->]; [exact He|reflexivity].
    + unfold Map_has in Hhas. rewrite Hget in Hhas. discriminate Hhas.
  - split.
    + rewrite Map_set_keys, Hhas. apply NoDup_app. split; [exact Hnd|].
      split; [|apply NoDup_singleton].
      intros x Hx Hin. apply list_elem_of_singleton in Hin as ->.
      apply Map_has_false in Hhas. contradiction.
    + apply Map_set_Forall; [exact Hall|reflexivity].
Qed.

Lemma fold_merge_step_keyed (tokens : list Token) (tokenMap : Map Token) :
  keyed_by_address tokenMap ->
  keyed_by_address (fold_left merge_step tokens tokenMap).
Proof.
  revert tokenMap. induction tokens as [|t ts IH]; intros m Hm; cbn; [exact Hm|].
  apply IH, merge_step_keyed, Hm.
Qed.

(** What [mergeAndDeduplicateTokens] returns holds at most one record per
    lower-cased address. *)
Lemma mergeAndDeduplicateTokens_NoDup (tokens : list Token) :
  NoDup (map (fun t => toLowerCase (token_address t))
             (mergeAndDeduplicateTokens tokens)).
Proof.
  unfold mergeAndDeduplicateTokens, Map_values.
  destruct (fold_merge_step_keyed tokens []) as [Hnd Hall].
  { split; [constructor|constructor]. }
  rewrite map_map.
  erewrite map_ext_Forall; [exact Hnd|].
  eapply Forall_impl; [exact Hall|]. intros [k v] H. exact H.
Qed.

Lemma merge_step_not_nil (tokenMap : Map Token) (token : Token) :
  tokenMap <> [] -> merge_step tokenMap token <> [].
Proof.
  intros Hm. unfold merge_step.
  destruct (negb _); [apply Map_set_not_nil|].
  destruct (mergeTokenData _ _); [apply Map_set_not_nil|exact Hm].
Qed.

Lemma fold_merge_step_not_nil (tokens : list Token) (tokenMap : Map Token) :
  tokenMap <> [] -> fold_left merge_step tokens tokenMap <> [].
Proof.
  revert tokenMap. induction tokens as [|t ts IH]; intros m Hm; cbn; [exact Hm|].
  apply IH, merge_step_not_nil, Hm.
Qed.

Lemma mergeAndDeduplicateTokens_not_nil (tokens : list Token) :
  tokens <> [] -> mergeAndDeduplicateTokens tokens <> [].
Proof.
  destruct tokens as [|t ts]; [congruence|intros _].
  unfold mergeAndDeduplicateTokens, Map_values. cbn [fold_left].
  intros H. apply map_eq_nil in H. revert H.
  apply fold_merge_step_not_nil. unfold merge_step. cbn.
  discriminate.
Qed.

End Dedup.

(** ** AggregatorService: searching and listing *)
Section Search.
Import JS Types AggregatorService Samples.
Local Open Scope float_scope.

(** [searchTokens] never throws: the cache degrades to a miss and a
    rejected source counts as an empty list. *)
Lemma searchTokens_Ok (up : Upstream) (cache : CacheService.t) (query : string) :
  exists tokens, fst (searchTokens up cache query) = Ok tokens.
Proof.
  unfold searchTokens. destruct (CacheService.get cache _); eexists; reflexivity.
Qed.

(** A fresh search result holds at most one record per lower-cased
    address. *)
Theorem searchTokens_fresh_NoDup (up : Upstream) (cache : CacheService.t)
    (query : string) (tokens : list Token) :
  CacheService.get cache (CACHE_PREFIX ++ "search:" ++ query)%string = None ->
  fst (searchTokens up cache query) = Ok tokens ->
  NoDup (map (fun t => toLowerCase (token_address t)) tokens).
Proof.
  unfold searchTokens. intros ->. cbn. intros [= <-].
  apply mergeAndDeduplicateTokens_NoDup.
Qed.

Lemma searchTokens_fresh_NoDup_witness :
  NoDup (map (fun t => toLowerCase (token_address t))
             (mergeAndDeduplicateTokens [pair_on_raydium; pair_on_orca])).
Proof.
  apply (searchTokens_fresh_NoDup two_pairs connected_empty "SOL");
    reflexivity.
Defined.

(** C8: when the cache misses and one of the two sources rejects while the
    other fulfils with [tokens], [searchTokens] returns normally with the
    merged and deduplicated [tokens], which is not empty unless [tokens]
    is. *)
Theorem searchTokens_partial_failure (up : Upstream) (cache : CacheService.t)
    (query : string) (tokens : list Token) (reason : string) :
  CacheService.get cache (CACHE_PREFIX ++ "search:" ++ query)%string = None ->
  (dexScreenerAPI_searchTokens up query = rejected reason /\
   jupiterAPI_searchTokens up query = fulfilled tokens) \/
  (dexScreenerAPI_searchTokens up query = fulfilled tokens /\
   jupiterAPI_searchTokens up query = rejected reason) ->
  fst (searchTokens up cache query) = Ok (mergeAndDeduplicateTokens tokens) /\
  (tokens <> [] -> mergeAndDeduplicateTokens tokens <> []).
Proof.
  intros Hmiss Hsrc. split; [|apply mergeAndDeduplicateTokens_not_nil].
  unfold searchTokens. rewrite Hmiss.
  destruct Hsrc as [[-> ->]|[-> ->]]; cbn [fst].
  - reflexivity.
  - rewrite app_nil_r. reflexivity.
Qed.

Lemma searchTokens_partial_failure_witness :
  fst (searchTokens dex_down disconnected "SOL")
    = Ok (mergeAndDeduplicateTokens [hundred]) /\
  ([hundred] <> [] -> mergeAndDeduplicateTokens [hundred] <> []).
Proof.
  apply (searchTokens_partial_failure dex_down disconnected "SOL" [hundred]
           "timeout of 10000ms exceeded").
  - reflexivity.
  - left. split; reflexivity.
Defined.

(** C3 does not hold of the default listing: without a search string
    [getFilteredTokens] takes the DexScreener result for "SOL" as it is,
    so two pairs of one token give two records with one address -- first
    from the upstream, then again from the cache the first call filled.
    The same upstream searched through [searchTokens] gives one record. *)
Theorem popular_listing_repeats_address :
  let run1 := getFilteredTokens two_pairs connected_empty no_parameters in
  let run2 := getFilteredTokens two_pairs (snd run1) no_parameters in
  (exists page,
     fst run1 = Ok page /\
     map (fun t => toLowerCase (token_address t)) (data page) =
       ["so11111111111111111111111111111111111111112";
        "so11111111111111111111111111111111111111112"]%string) /\
  (exists page,
     fst run2 = Ok page /\
     map (fun t => toLowerCase (token_address t)) (data page) =
       ["so11111111111111111111111111111111111111112";
        "so11111111111111111111111111111111111111112"]%string) /\
  (exists tokens,
     fst (searchTokens two_pairs connected_empty "SOL") = Ok tokens /\
     map (fun t => toLowerCase (token_address t)) tokens =
       ["so11111111111111111111111111111111111111112"]%string).
Proof.
  cbv zeta. split; [|split]; eexists; split; vm_compute; reflexivity.
Qed.

End Search.

(** ** AggregatorService: pagination *)
Section Pagination.
Import JS Types AggregatorService Spec Samples.
Local Open Scope Z_scope.

Lemma index_range_from_take_drop {A} (l : list A) (i lo hi : Z) :
  index_range_from i l lo hi =
  take (Z.to_nat (hi - Z.max lo i)) (drop (Z.to_nat (lo - i)) l).
Proof.
  revert i. induction l as [|x r IH]; intros i; cbn [index_range_from].
  - rewrite drop_nil, take_nil. reflexivity.
  - rewrite IH. destruct (Z.leb_spec lo i) as [Hlo|Hlo]; cbn [andb].
    + replace (Z.to_nat (lo - i)) with 0%nat by lia.
      replace (Z.to_nat (lo - (i + 1))) with 0%nat by lia.
      cbn [drop]. destruct (Z.ltb_spec i hi) as [Hhi|Hhi].
      * replace (Z.to_nat (hi - Z.max lo i))
          with (S (Z.to_nat (hi - Z.max lo (i + 1)))) by lia.
        reflexivity.
      * replace (Z.to_nat (hi - Z.max lo i)) with 0%nat by lia.
        replace (Z.to_nat (hi - Z.max lo (i + 1))) with 0%nat by lia.
        reflexivity.
    + replace (Z.to_nat (lo - i)) with (S (Z.to_nat (lo - (i + 1)))) by lia.
      cbn [drop]. replace (Z.max lo (i + 1)) with (Z.max lo i) by lia.
      reflexivity.
Qed.

(** For indices that are not negative, [slice] is the index range. *)
Lemma slice_index_range {A} (l : list A) (c e : Z) :
  0 <= c -> 0 <= e -> slice l (JInt c) (JInt e) = index_range l c e.
Proof.
  intros Hc He. unfold index_range, slice. cbn [to_integer].
  rewrite index_range_from_take_drop.
  destruct (Z.ltb_spec c 0) as [?|_]; [lia|].
  destruct (Z.ltb_spec e 0) as [?|_]; [lia|].
  replace (Z.max c 0) with c by lia. replace (c - 0) with c by lia.
  set (len := Z.of_nat (length l)).
  destruct (Z.le_gt_cases len c) as [Hge|Hlt].
  - rewrite !drop_ge by lia. rewrite !take_nil. reflexivity.
  - replace (Z.min c len) with c by lia.
    destruct (Z.le_gt_cases e len) as [Hel|Hel].
    + f_equal. lia.
    + rewrite !take_ge; [reflexivity| |]; rewrite length_drop; lia.
Qed.

Lemma slice_take_drop {A} (l : list A) (c n : Z) :
  0 <= c -> 0 <= n ->
  slice l (JInt c) (JInt (c + n)) = take (Z.to_nat n) (drop (Z.to_nat c) l).
Proof.
  intros Hc Hn. rewrite slice_index_range by lia.
  unfold index_range. rewrite index_range_from_take_drop.
  f_equal; [|f_equal]; lia.
Qed.

(** A slice up to NaN is empty: the end index becomes 0. *)
Lemma slice_to_NaN {A} (l : list A) (c : Z) :
  0 <= c -> slice l (JInt c) JNaN = [].
Proof.
  intros Hc. unfold slice. cbn [to_integer].
  destruct (Z.ltb_spec c 0) as [?|_]; [lia|].
  change (0 <? 0) with false. cbv iota.
  replace (Z.to_nat _) with 0%nat by lia. reflexivity.
Qed.

(** C5, as stated, fails for a negative cursor: [slice] then counts from
    the end of the list.  With three ranked records, cursor "-2" and limit
    1 the page holds the second record and the next cursor is "-1", while
    no index lies in [[-2, -1)]. *)
Lemma negative_cursor_counts_from_the_end :
  let q := {| limit := Some (JInt 1); cursor := Some "-2"%string;
              sortBy := Some "volume"%string; order := Some "desc"%string;
              period := None; search := None; minVolume := None |} in
  let ranked := [ranked_first; ranked_second; ranked_third] in
  startIndexOf (cursor q) = JInt (-2) /\
  (exists page,
     fst (getFilteredTokens three_ranked disconnected q) = Ok page /\
     data page = [ranked_second] /\
     nextCursor (pagination page) = Some "-1"%string) /\
  index_range ranked (-2) (-2 + 1) = [].
Proof.
  cbv zeta. split; [reflexivity|]. split; [|reflexivity].
  eexists. split; [vm_compute; reflexivity|]. split; reflexivity.
Qed.

(** C5 (amended): for a cursor that denotes an offset [c >= 0] and a limit
    [n] with [c + n >= 0], [getFilteredTokens] returns the elements of the
    filtered and sorted list whose index lies in [[c, c + n)]; the next
    cursor is the numeral of [c + n] when that is below the length of the
    list and is absent otherwise.  On one such list, the page for limit 5
    and the page for limit 5 and cursor "5" are its first five and its next
    five elements, together its first ten. *)
Theorem getFilteredTokens_page (up : Upstream) (cache cache' : CacheService.t)
    (q : TokenQuery) (tokens : list Token) (c n : Z) :
  resolveTokens up cache (default ""%string (search q)) = (Ok tokens, cache') ->
  startIndexOf (cursor q) = JInt c ->
  default (JInt 30) (limit q) = JInt n ->
  0 <= c -> 0 <= c + n ->
  let ranked :=
    sortTokens
      (applyFilters tokens (default "24h"%string (period q))
                    (default 0%float (minVolume q)))
      (default "volume"%string (sortBy q)) (default "desc"%string (order q)) in
  (exists page,
     getFilteredTokens up cache q = (Ok page, cache') /\
     data page = index_range ranked c (c + n) /\
     nextCursor (pagination page) =
       (if c + n <? Z.of_nat (length ranked) then Some (toString (c + n))
        else None)) /\
  data (paginate ranked None (JInt 5)) = take 5 ranked /\
  data (paginate ranked (Some "5"%string) (JInt 5)) = take 5 (drop 5 ranked) /\
  data (paginate ranked None (JInt 5))
    ++ data (paginate ranked (Some "5"%string) (JInt 5)) = take 10 ranked /\
  (5 < Z.of_nat (length ranked) ->
   nextCursor (pagination (paginate ranked None (JInt 5))) = Some "5"%string).
Proof.
  intros Hres Hc Hn Hc0 He0 ranked.
  assert (H1 : data (paginate ranked None (JInt 5)) = take 5 ranked).
  { unfold paginate. cbn [data startIndexOf add_int].
    apply (slice_take_drop ranked 0 5); lia. }
  assert (H2 : data (paginate ranked (Some "5"%string) (JInt 5))
               = take 5 (drop 5 ranked)).
  { unfold paginate. cbn [data].
    change (startIndexOf (Some "5"%string)) with (JInt 5). cbn [add_int].
    apply (slice_take_drop ranked 5 5); lia. }
  split; [|split; [exact H1|split; [exact H2|split]]].
  - eexists. split.
    + unfold getFilteredTokens. rewrite Hres, Hn. reflexivity.
    + fold ranked. unfold paginate. rewrite Hc. cbn [add_int data pagination nextCursor].
      split; [apply slice_index_range; lia|reflexivity].
  - rewrite H1, H2. apply (take_take_drop ranked 5 5).
  - intros Hlen. unfold paginate. cbn [startIndexOf add_int pagination nextCursor].
    change (0 + 5) with 5. destruct (Z.ltb_spec 5 (Z.of_nat (length ranked))); [reflexivity|lia].
Qed.

Lemma getFilteredTokens_page_witness :
  let q := {| limit := Some (JInt 2); cursor := Some "1"%string;
              sortBy := Some "volume"%string; order := Some "desc"%string;
              period := None; search := None; minVolume := None |} in
  exists page,
    getFilteredTokens three_ranked disconnected q = (Ok page, disconnected) /\
    data page = [ranked_second; ranked_third].
Proof.
  cbv zeta.
  destruct (getFilteredTokens_page three_ranked disconnected disconnected
              {| limit := Some (JInt 2); cursor := Some "1"%string;
                 sortBy := Some "volume"%string; order := Some "desc"%string;
                 period := None; search := None; minVolume := None |}
              [ranked_third; ranked_first; ranked_second] 1 2)
    as [(page & Hrun & Hdata & _) _];
    [reflexivity|reflexivity|reflexivity|lia|lia|].
  exists page. split; [exact Hrun|]. rewrite Hdata. vm_compute. reflexivity.
Defined.

End Pagination.

(** ** AggregatorService: filters *)
Section Filters.
Import JS Types AggregatorService Spec Samples.
Local Open Scope float_scope.

(** What [applyFilters] keeps: the tokens whose volume is not below
    [minVolume] and which, for period "1h", have a one-hour change. *)
Lemma applyFilters_keeps (tokens : list Token) (period : string)
    (minVolume : number) (t : Token) :
  In t (applyFilters tokens period minVolume) <->
  In t tokens /\
  (volume_sol t <? minVolume) = false /\
  (period = "1h"%string -> price_1hr_change t <> None).
Proof.
  unfold applyFilters. rewrite filter_In.
  destruct (volume_sol t <? minVolume); [intuition discriminate|].
  destruct (String.eqb_spec period "1h") as [->|Hp]; cbn [andb].
  - destruct (price_1hr_change t); cbn; intuition congruence.
  - intuition congruence.
Qed.

(** C6 does not hold for the periods "24h" and "7d": [applyFilters] tests
    the change field for "1h" only, so a record without a 24-hour or a
    7-day change is kept where the 1-hour filter drops it. *)
Theorem applyFilters_ignores_24h_and_7d :
  let listing period :=
    data <$> result_value
      (fst (getFilteredTokens reads_no_changes disconnected
              {| limit := None; cursor := None; sortBy := None; order := None;
                 period := Some period; search := None; minVolume := None |})) in
  price_24hr_change no_changes = None /\
  price_7d_change no_changes = None /\
  applyFilters [no_changes] "24h" 0 = [no_changes] /\
  applyFilters [no_changes] "7d" 0 = [no_changes] /\
  applyFilters [no_changes] "1h" 0 = [] /\
  listing "24h"%string = Some [no_changes] /\
  listing "7d"%string = Some [no_changes] /\
  listing "1h"%string = Some [].
Proof.
  cbv zeta. do 5 (split; [reflexivity|]).
  split; [|split]; vm_compute; reflexivity.
Qed.

End Filters.

(** ** WebSocketService: change classification *)
Section Changes.
Import JS Types WebSocketService Spec Samples.
Local Open Scope float_scope.

Lemma includes_In (us : list (nat * Token)) (i : nat) (t : Token) :
  In (i, t) us -> includes us i = true.
Proof.
  intros H. unfold includes. apply existsb_exists.
  exists (i, t). split; [exact H|apply Nat.eqb_refl].
Qed.

Lemma includes_app_same (us : list (nat * Token)) (i : nat) (t : Token) :
  includes (us ++ [(i, t)]) i = true.
Proof.
  apply (includes_In _ i t), in_or_app. right. left. reflexivity.
Qed.

Lemma checkPrice_priceUpdates (c : Cycle) i (cur prev : Token) :
  priceUpdates (checkPrice c i cur prev) =
  if PRICE_THRESHOLD <? abs (price_sol cur - price_sol prev) then
    priceUpdates c ++
    [{| pu_token_address := token_address cur;
        old_price := price_sol prev;
        new_price := price_sol cur;
        change_percent :=
          (price_sol cur - price_sol prev) / price_sol prev * 100 |}]
  else priceUpdates c.
Proof.
  unfold checkPrice, Math_abs.
  destruct (PRICE_THRESHOLD <? _); reflexivity.
Qed.

Lemma checkPrice_volumeSpikes (c : Cycle) i (cur prev : Token) :
  volumeSpikes (checkPrice c i cur prev) = volumeSpikes c.
Proof.
  unfold checkPrice. destruct (PRICE_THRESHOLD <? _); reflexivity.
Qed.

Lemma checkPrice_updates (c : Cycle) i (cur prev : Token) :
  updates (checkPrice c i cur prev) =
  if PRICE_THRESHOLD <? abs (price_sol cur - price_sol prev)
  then updates c ++ [(i, cur)] else updates c.
Proof.
  unfold checkPrice, Math_abs. destruct (PRICE_THRESHOLD <? _); reflexivity.
Qed.

Lemma checkVolume_priceUpdates (c : Cycle) i (cur prev : Token) :
  priceUpdates (checkVolume c i cur prev) = priceUpdates c.
Proof.
  unfold checkVolume.
  destruct (VOLUME_THRESHOLD <? _); [|reflexivity].
  destruct (20 <? _); cbn [updates]; destruct (negb _); reflexivity.
Qed.

Lemma checkVolume_volumeSpikes (c : Cycle) i (cur prev : Token) :
  volumeSpikes (checkVolume c i cur prev) =
  if (VOLUME_THRESHOLD <? abs (volume_sol cur - volume_sol prev))
     && (20 <? (volume_sol cur - volume_sol prev) / volume_sol prev * 100)
  then
    volumeSpikes c ++
    [{| vs_token_address := token_address cur;
        old_volume := volume_sol prev;
        new_volume := volume_sol cur;
        spike_percent :=
          (volume_sol cur - volume_sol prev) / volume_sol prev * 100 |}]
  else volumeSpikes c.
Proof.
  unfold checkVolume, Math_abs.
  destruct (VOLUME_THRESHOLD <? _); [|reflexivity].
  destruct (20 <? _); cbn [updates andb]; destruct (negb _); reflexivity.
Qed.

(** After the volume comparison a token whose volume changed is in
    [updates], and exactly once if it was there at most once before. *)
Lemma checkVolume_updates (c : Cycle) i (cur prev : Token) :
  (VOLUME_THRESHOLD <? abs (volume_sol cur - volume_sol prev)) = true ->
  includes (updates (checkVolume c i cur prev)) i = true /\
  (In (i, cur) (updates c) \/ includes (updates c) i = false ->
   In (i, cur) (updates (checkVolume c i cur prev))).
Proof.
  intros Hv. unfold checkVolume, Math_abs. rewrite Hv.
  destruct (20 <? _); cbn [updates];
    destruct (includes (updates c) i) eqn:E; cbn [negb updates];
    (split; [try exact E; apply includes_app_same|]);
    intros [H|H]; try exact H; try discriminate H;
    apply in_or_app; auto; right; left; reflexivity.
Qed.

Lemma processToken_known (ws : WebSocketService.t) (c : Cycle) (i : nat)
    (cur prev : Token) :
  token_address cur <> ""%string ->
  previousTokenData ws !! token_address cur = Some prev ->
  snd (processToken (ws, c) (i, cur))
    = checkVolume (checkPrice c i cur prev) i cur prev.
Proof.
  intros Haddr Hprev. unfold processToken.
  apply String.eqb_neq in Haddr. rewrite Haddr, Hprev. reflexivity.
Qed.

(** C4: for a token with a valid address and a previous snapshot, one pass
    of the loop adds a price entry exactly when the absolute price
    difference exceeds 1e-9, adds a volume-spike entry exactly when the
    absolute volume difference exceeds 1e-6 and the percent change exceeds
    20, and has the token in the updated batch ([updates.includes] holds
    of it) whenever the absolute volume difference exceeds 1e-6.  With snapshot (price 1, volume 100) and
    reading (price 1, volume 125) a cycle broadcasts the updated batch and
    one volume spike of 25 percent, and no price update. *)
Theorem change_classification (ws : WebSocketService.t) (c : Cycle) (i : nat)
    (currentToken previous : Token) :
  token_address currentToken <> ""%string ->
  previousTokenData ws !! token_address currentToken = Some previous ->
  let c' := snd (processToken (ws, c) (i, currentToken)) in
  let priceDiff := abs (price_sol currentToken - price_sol previous) in
  let volumeDiff := abs (volume_sol currentToken - volume_sol previous) in
  let volumeChange :=
    (volume_sol currentToken - volume_sol previous) / volume_sol previous
    * 100 in
  priceUpdates c' =
    (if PRICE_THRESHOLD <? priceDiff then
       priceUpdates c ++
       [{| pu_token_address := token_address currentToken;
           old_price := price_sol previous;
           new_price := price_sol currentToken;
           change_percent :=
             (price_sol currentToken - price_sol previous)
             / price_sol previous * 100 |}]
     else priceUpdates c) /\
  ((VOLUME_THRESHOLD <? volumeDiff) = true ->
   includes (updates c') i = true /\
   (includes (updates c) i = false -> In (i, currentToken) (updates c'))) /\
  volumeSpikes c' =
    (if (VOLUME_THRESHOLD <? volumeDiff) && (20 <? volumeChange) then
       volumeSpikes c ++
       [{| vs_token_address := token_address currentToken;
           old_volume := volume_sol previous;
           new_volume := volume_sol currentToken;
           spike_percent := volumeChange |}]
     else volumeSpikes c) /\
  emitted (fst (fetchAndBroadcastUpdates reads_hundred_now disconnected
                  saw_hundred)) =
    [tokens_updated [hundred_now];
     volume_spike
       [{| vs_token_address := token_address hundred_now;
           old_volume := 100; new_volume := 125; spike_percent := 25 |}]].
Proof.
  intros Haddr Hprev. cbv zeta.
  rewrite (processToken_known ws c i currentToken previous Haddr Hprev).
  rewrite checkVolume_priceUpdates, checkPrice_priceUpdates.
  rewrite checkVolume_volumeSpikes, checkPrice_volumeSpikes.
  split; [reflexivity|]. split; [|split; [reflexivity|vm_compute; reflexivity]].
  intros Hv.
  destruct (checkVolume_updates (checkPrice c i currentToken previous) i
              currentToken previous Hv) as [Hinc Hin].
  split; [exact Hinc|]. intros Hfresh. apply Hin.
  rewrite checkPrice_updates.
  destruct (PRICE_THRESHOLD <? _).
  - left. apply in_or_app. right. left. reflexivity.
  - right. exact Hfresh.
Qed.

Lemma change_classification_witness :
  priceUpdates (snd (processToken (saw_hundred, emptyCycle) (0%nat, hundred_now)))
    = [] /\
  volumeSpikes (snd (processToken (saw_hundred, emptyCycle) (0%nat, hundred_now)))
    = [{| vs_token_address := token_address hundred_now;
          old_volume := 100; new_volume := 125; spike_percent := 25 |}].
Proof.
  destruct (change_classification saw_hundred emptyCycle 0 hundred_now hundred)
    as (Hp & _ & Hs & _); [discriminate|reflexivity|].
  split; [rewrite Hp|rewrite Hs]; vm_compute; reflexivity.
Defined.

(** *** The whole cycle

    What one pass of the loop adds stays in the three batches until the
    end of the loop, and a batch that is not empty is broadcast. *)

Lemma batches_grow_refl (c : Cycle) : batches_grow c c.
Proof. repeat split; apply incl_refl. Qed.

Lemma batches_grow_trans (c1 c2 c3 : Cycle) :
  batches_grow c1 c2 -> batches_grow c2 c3 -> batches_grow c1 c3.
Proof.
  intros (A1 & A2 & A3) (B1 & B2 & B3).
  repeat split; eapply incl_tran; eassumption.
Qed.

Lemma checkPrice_grows (c : Cycle) i (cur prev : Token) :
  batches_grow c (checkPrice c i cur prev).
Proof.
  unfold checkPrice. destruct (PRICE_THRESHOLD <? _); [|apply batches_grow_refl].
  repeat split; cbn; try apply incl_refl; apply incl_appl, incl_refl.
Qed.

Lemma checkVolume_grows (c : Cycle) i (cur prev : Token) :
  batches_grow c (checkVolume c i cur prev).
Proof.
  unfold checkVolume. destruct (VOLUME_THRESHOLD <? _); [|apply batches_grow_refl].
  destruct (20 <? _); cbn [updates]; destruct (negb _);
    repeat split; cbn; try apply incl_refl; apply incl_appl, incl_refl.
Qed.

Lemma processToken_grows (ws : WebSocketService.t) (c : Cycle)
    (entry : nat * Token) :
  batches_grow c (snd (processToken (ws, c) entry)).
Proof.
  destruct entry as [i cur]. unfold processToken.
  destruct (String.eqb (token_address cur) ""); [apply batches_grow_refl|].
  destruct (previousTokenData ws !! token_address cur) as [prev|]; cbn [snd].
  - eapply batches_grow_trans; [apply checkPrice_grows|apply checkVolume_grows].
  - repeat split; cbn; try apply incl_refl; apply incl_appl, incl_refl.
Qed.

Lemma fold_processToken_grows (entries : list (nat * Token)) :
  forall st, batches_grow (snd st) (snd (fold_left processToken entries st)).
Proof.
  induction entries as [|e es IH]; intros [ws c]; cbn [fold_left].
  - apply batches_grow_refl.
  - eapply batches_grow_trans; [apply (processToken_grows ws c e)|apply IH].
Qed.

Lemma combine_app_same {A B} (l1 l2 : list A) (k1 k2 : list B) :
  length l1 = length k1 ->
  combine (l1 ++ l2) (k1 ++ k2) = combine l1 k1 ++ combine l2 k2.
Proof.
  revert k1. induction l1 as [|a l1 IH]; intros [|b k1] H; cbn in *;
    try discriminate; [reflexivity|].
  f_equal. apply IH. congruence.
Qed.

(** The loop over [pre ++ cur :: post] is the loop over [pre], one pass
    for [cur] at position [length pre], then the passes for [post]. *)
Lemma runLoop_app (ws : WebSocketService.t) (pre post : list Token)
    (cur : Token) :
  runLoop ws (pre ++ cur :: post) =
  fold_left processToken
    (combine (seq (S (length pre)) (length post)) post)
    (processToken (runLoop ws pre) (length pre, cur)).
Proof.
  unfold runLoop. rewrite length_app. cbn [length].
  rewrite seq_app. cbn [seq].
  rewrite combine_app_same by apply length_seq.
  rewrite fold_left_app. cbn [combine fold_left Nat.add]. reflexivity.
Qed.

Lemma broadcast_emits (ws : WebSocketService.t) (c : Cycle) :
  (updates c <> [] ->
   In (tokens_updated (map snd (updates c))) (emitted (broadcast ws c))) /\
  (priceUpdates c <> [] ->
   In (price_update (priceUpdates c)) (emitted (broadcast ws c))) /\
  (volumeSpikes c <> [] ->
   In (volume_spike (volumeSpikes c)) (emitted (broadcast ws c))).
Proof.
  unfold broadcast.
  destruct (updates c) as [|u us], (priceUpdates c) as [|p ps],
    (volumeSpikes c) as [|v vs]; cbn [length Nat.ltb Nat.leb emitEvent emitted];
    repeat split; intros H; try congruence;
    rewrite ?in_app_iff; cbn; tauto.
Qed.

(** Inside the loop the batch of updated tokens only holds tokens of
    earlier positions, so [updates.includes(currentToken)] is false when a
    pass begins. *)
Lemma checkPrice_indices (c : Cycle) i (cur prev : Token) (n : nat) :
  indices_below n c -> (i < n)%nat -> indices_below n (checkPrice c i cur prev).
Proof.
  unfold indices_below, checkPrice. intros Hc Hi.
  destruct (PRICE_THRESHOLD <? _); [|exact Hc].
  cbn. apply Forall_app. split; [exact Hc|]. repeat constructor. exact Hi.
Qed.

Lemma checkVolume_indices (c : Cycle) i (cur prev : Token) (n : nat) :
  indices_below n c -> (i < n)%nat -> indices_below n (checkVolume c i cur prev).
Proof.
  unfold indices_below, checkVolume. intros Hc Hi.
  destruct (VOLUME_THRESHOLD <? _); [|exact Hc].
  destruct (20 <? _); cbn [updates]; destruct (negb _); cbn; try exact Hc;
    (apply Forall_app; split; [exact Hc|]); repeat constructor; exact Hi.
Qed.

Lemma processToken_indices (ws : WebSocketService.t) (c : Cycle) (i : nat)
    (cur : Token) :
  indices_below i c -> indices_below (S i) (snd (processToken (ws, c) (i, cur))).
Proof.
  intros Hc.
  assert (Hc' : indices_below (S i) c).
  { unfold indices_below in *. eapply Forall_impl; [exact Hc|]. cbn. lia. }
  unfold processToken.
  destruct (String.eqb (token_address cur) ""); [exact Hc'|].
  destruct (previousTokenData ws !! token_address cur) as [prev|]; cbn [snd].
  - apply checkVolume_indices; [apply checkPrice_indices; [exact Hc'|lia]|lia].
  - unfold indices_below. cbn. apply Forall_app. split; [exact Hc'|].
    repeat constructor.
Qed.

Lemma fold_processToken_indices (tokens : list Token) :
  forall (k : nat) (st : WebSocketService.t * Cycle),
  indices_below k (snd st) ->
  indices_below (k + length tokens)
    (snd (fold_left processToken (combine (seq k (length tokens)) tokens) st)).
Proof.
  induction tokens as [|t ts IH]; intros k [ws c] Hc; cbn [length seq combine fold_left].
  - rewrite Nat.add_0_r. exact Hc.
  - replace (k + S (length ts))%nat with (S k + length ts)%nat by lia.
    apply IH. destruct (processToken (ws, c) (k, t)) as [ws' c'] eqn:E.
    change c' with (snd (ws', c')). rewrite <- E.
    apply processToken_indices. exact Hc.
Qed.

Lemma runLoop_fresh (ws : WebSocketService.t) (pre : list Token) :
  includes (updates (snd (runLoop ws pre))) (length pre) = false.
Proof.
  pose proof (fold_processToken_indices pre 0 (ws, emptyCycle)) as H.
  cbn [snd Nat.add] in H. fold (runLoop ws pre) in H.
  assert (Hb : indices_below (length pre) (snd (runLoop ws pre))).
  { apply H. constructor. }
  unfold indices_below in Hb. unfold includes.
  apply not_true_iff_false. intros Hex.
  apply existsb_exists in Hex as [[j t] [Hin Hj]].
  rewrite List.Forall_forall in Hb. specialize (Hb _ Hin). cbn in Hb, Hj.
  apply Nat.eqb_eq in Hj. lia.
Qed.

(** At the level of a cycle: for the token at any position of the fetched
    list that has a valid address and a snapshot when its pass begins, a
    price difference above the threshold puts its price entry in the
    [price_update] broadcast, a volume difference above the threshold puts
    the token in the [tokens_updated] broadcast, and a volume rise of more
    than 20 percent puts its spike entry in the [volume_spike] broadcast. *)
Theorem cycle_broadcasts_changes (ws : WebSocketService.t)
    (pre post : list Token) (cur prev : Token) :
  let before := runLoop ws pre in
  let final := runLoop ws (pre ++ cur :: post) in
  let out := emitted (detectChanges ws (pre ++ cur :: post)) in
  let priceDiff := abs (price_sol cur - price_sol prev) in
  let volumeDiff := abs (volume_sol cur - volume_sol prev) in
  let volumeChange :=
    (volume_sol cur - volume_sol prev) / volume_sol prev * 100 in
  token_address cur <> ""%string ->
  previousTokenData (fst before) !! token_address cur = Some prev ->
  ((PRICE_THRESHOLD <? priceDiff) = true ->
   In {| pu_token_address := token_address cur;
         old_price := price_sol prev;
         new_price := price_sol cur;
         change_percent :=
           (price_sol cur - price_sol prev) / price_sol prev * 100 |}
      (priceUpdates (snd final)) /\
   In (price_update (priceUpdates (snd final))) out) /\
  ((VOLUME_THRESHOLD <? volumeDiff) = true ->
   In cur (map snd (updates (snd final))) /\
   In (tokens_updated (map snd (updates (snd final)))) out) /\
  ((VOLUME_THRESHOLD <? volumeDiff) = true -> (20 <? volumeChange) = true ->
   In {| vs_token_address := token_address cur;
         old_volume := volume_sol prev;
         new_volume := volume_sol cur;
         spike_percent := volumeChange |}
      (volumeSpikes (snd final)) /\
   In (volume_spike (volumeSpikes (snd final))) out).
Proof.
  cbv zeta. intros Haddr Hprev.
  pose proof (runLoop_app ws pre post cur) as Hsplit.
  pose proof (fold_processToken_grows
                (combine (seq (S (length pre)) (length post)) post)
                (processToken (runLoop ws pre) (length pre, cur))) as Hgrow.
  rewrite <- Hsplit in Hgrow.
  destruct (runLoop ws pre) as [ws1 c1] eqn:Hpre. cbn [fst] in Hprev.
  rewrite (processToken_known ws1 c1 (length pre) cur prev Haddr Hprev) in Hgrow.
  destruct Hgrow as (Hu & Hp & Hv).
  assert (Hout : emitted (detectChanges ws (pre ++ cur :: post))
                 = emitted (broadcast (fst (runLoop ws (pre ++ cur :: post)))
                                      (snd (runLoop ws (pre ++ cur :: post))))).
  { unfold detectChanges. destruct (runLoop ws (pre ++ cur :: post)); reflexivity. }
  rewrite Hout.
  destruct (broadcast_emits (fst (runLoop ws (pre ++ cur :: post)))
                            (snd (runLoop ws (pre ++ cur :: post))))
    as (Bu & Bp & Bv).
  assert (Hne : forall {X} (x : X) l, In x l -> l <> []).
  { intros X x l Hin ->. exact Hin. }
  split; [|split].
  - intros Hthr.
    assert (Hin : In {| pu_token_address := token_address cur;
                        old_price := price_sol prev;
                        new_price := price_sol cur;
                        change_percent :=
                          (price_sol cur - price_sol prev) / price_sol prev * 100 |}
                     (priceUpdates (snd (runLoop ws (pre ++ cur :: post))))).
    { apply Hp. rewrite checkVolume_priceUpdates, checkPrice_priceUpdates, Hthr.
      apply in_or_app. right. left. reflexivity. }
    split; [exact Hin|]. apply Bp. eapply Hne, Hin.
  - intros Hthr.
    assert (Hin : In (length pre, cur)
                     (updates (snd (runLoop ws (pre ++ cur :: post))))).
    { apply Hu.
      apply (checkVolume_updates (checkPrice c1 (length pre) cur prev)
               (length pre) cur prev Hthr).
      rewrite checkPrice_updates.
      destruct (PRICE_THRESHOLD <? _).
      - left. apply in_or_app. right. left. reflexivity.
      - right. pose proof (runLoop_fresh ws pre) as Hf.
        rewrite Hpre in Hf. exact Hf. }
    split; [apply (in_map snd) in Hin; exact Hin|].
    apply Bu. eapply Hne, Hin.
  - intros Hthr Hpct.
    assert (Hin : In {| vs_token_address := token_address cur;
                        old_volume := volume_sol prev;
                        new_volume := volume_sol cur;
                        spike_percent :=
                          (volume_sol cur - volume_sol prev) / volume_sol prev * 100 |}
                     (volumeSpikes (snd (runLoop ws (pre ++ cur :: post))))).
    { apply Hv. rewrite checkVolume_volumeSpikes, Hthr, Hpct. cbn [andb].
      apply in_or_app. right. left. reflexivity. }
    split; [exact Hin|]. apply Bv. eapply Hne, Hin.
Qed.

Lemma cycle_broadcasts_changes_witness :
  In hundred_now
     (map snd (updates (snd (runLoop saw_hundred ([] ++ hundred_now :: []))))) /\
  In (tokens_updated
        (map snd (updates (snd (runLoop saw_hundred ([] ++ hundred_now :: []))))))
     (emitted (detectChanges saw_hundred ([] ++ hundred_now :: []))).
Proof.
  destruct (cycle_broadcasts_changes saw_hundred [] [] hundred_now hundred)
    as (_ & Hv & _); [discriminate|reflexivity|].
  apply Hv. reflexivity.
Defined.

(** A token whose address has no snapshot triggers one [new_token] event,
    joins the updated batch and becomes the snapshot of its address; a
    later pass for that address emits no event of its own. *)
Theorem new_token_detected (ws : WebSocketService.t) (c : Cycle) (i : nat)
    (cur : Token) :
  token_address cur <> ""%string ->
  previousTokenData ws !! token_address cur = None ->
  let st := processToken (ws, c) (i, cur) in
  emitted (fst st) = emitted ws ++ [new_token cur] /\
  previousTokenData (fst st) !! token_address cur = Some cur /\
  updates (snd st) = updates c ++ [(i, cur)] /\
  priceUpdates (snd st) = priceUpdates c /\
  volumeSpikes (snd st) = volumeSpikes c /\
  forall (c' : Cycle) (j : nat) (next : Token),
    token_address next = token_address cur ->
    emitted (fst (processToken (fst st, c') (j, next))) = emitted (fst st).
Proof.
  intros Haddr Hnew. cbv zeta. unfold processToken at 1 2 3 4 5.
  pose proof Haddr as Hne. apply String.eqb_neq in Hne. rewrite Hne, Hnew.
  cbn [fst snd remember emitEvent previousTokenData emitted updates
       priceUpdates volumeSpikes].
  split; [reflexivity|]. split; [apply lookup_insert_eq|].
  do 3 (split; [reflexivity|]).
  intros c' j next Hsame. unfold processToken.
  rewrite Hne, Hnew, Hsame, Hne.
  cbn [fst remember emitEvent previousTokenData emitted].
  rewrite lookup_insert_eq. reflexivity.
Qed.

Lemma new_token_detected_witness :
  emitted (fst (processToken (saw_hundred, emptyCycle) (0%nat, no_changes)))
    = [new_token no_changes].
Proof.
  destruct (new_token_detected saw_hundred emptyCycle 0 no_changes)
    as (He & _); [discriminate|reflexivity|].
  exact He.
Defined.

End Changes.

(** ** RateLimiter: the fixed window *)
Section Window.
Import Types RateLimiter Spec.
Local Open Scope Z_scope.

Lemma store_lookup (rl : RateLimiter.t) (identifier : string)
    (info : RateLimitInfo) :
  requestCounts (store rl identifier info) !! identifier = Some info.
Proof. unfold store. cbn. apply lookup_insert_eq. Qed.

(** Inside a window with [k] slots left, [k] calls are admitted and each
    one is counted. *)
Lemma canMakeRequests_admitted (identifier : string) (times : list Z) :
  forall (rl : RateLimiter.t) (info : RateLimitInfo),
  requestCounts rl !! identifier = Some info ->
  Forall (fun now => now - windowStart info < windowMs rl) times ->
  requests info + Z.of_nat (length times) <= maxRequests rl ->
  let run := canMakeRequests times identifier rl in
  fst run = replicate (length times) true /\
  requestCounts (snd run) !! identifier =
    Some {| requests := requests info + Z.of_nat (length times);
            windowStart := windowStart info;
            blocked := blocked info |} /\
  maxRequests (snd run) = maxRequests rl /\
  windowMs (snd run) = windowMs rl.
Proof.
  induction times as [|now rest IH]; intros rl info Hinfo Hin Hroom; cbv zeta.
  - cbn. rewrite Z.add_0_r. destruct info; auto.
  - apply Forall_cons in Hin as [Hnow Hrest].
    cbn [length] in Hroom |- *.
    set (info' := {| requests := requests info + 1;
                     windowStart := windowStart info;
                     blocked := blocked info |}).
    assert (Hstep : canMakeRequest now identifier rl
                    = (true, store rl identifier info')).
    { unfold canMakeRequest. rewrite Hinfo.
      destruct (Z.leb_spec (windowMs rl) (now - windowStart info)); [lia|].
      destruct (Z.leb_spec (maxRequests rl) (requests info)); [lia|].
      reflexivity. }
    cbn [canMakeRequests]. rewrite Hstep.
    specialize (IH (store rl identifier info') info'
                   (store_lookup rl identifier info') Hrest).
    cbn [requests windowStart blocked info' store maxRequests windowMs] in IH.
    destruct IH as (Hans & Hst & Hmax & Hwin); [lia|].
    destruct (canMakeRequests rest identifier (store rl identifier info'))
      as [bs rl'] eqn:Hrun.
    cbn [fst snd] in *. rewrite Hans, Hst, Hmax, Hwin.
    split; [reflexivity|]. split; [|split; reflexivity].
    do 2 f_equal. lia.
Qed.

(** C7, as stated, fails for [maxRequests = 0]: the call that opens a
    window is always admitted, so the first call -- the
    [(maxRequests + 1)]-th -- returns [true]. *)
Lemma zero_limit_admits_first_call :
  maxRequests (create 0 1000) + 1 = 1 /\
  fst (canMakeRequest 0 "search" (create 0 1000)) = true.
Proof. split; reflexivity. Qed.

(** C7 (amended): for [maxRequests >= 1], starting at a call that opens a
    window at [t0] (no entry, or an expired one), the first [maxRequests]
    calls inside the window return [true] and the next one returns
    [false]; a call at a time [t] with [t - t0 >= windowMs] returns [true]
    and leaves a fresh window that starts at [t] with count 1. *)
Theorem fixed_window (rl : RateLimiter.t) (identifier : string)
    (t0 : Z) (times : list Z) (t : Z) :
  1 <= maxRequests rl ->
  (requestCounts rl !! identifier = None \/
   exists info, requestCounts rl !! identifier = Some info /\
                windowMs rl <= t0 - windowStart info) ->
  length times = Z.to_nat (maxRequests rl) ->
  Forall (fun now => now - t0 < windowMs rl) times ->
  windowMs rl <= t - t0 ->
  let run := canMakeRequests (t0 :: times) identifier rl in
  fst run = replicate (Z.to_nat (maxRequests rl)) true ++ [false] /\
  fst (canMakeRequest t identifier (snd run)) = true /\
  requestCounts (snd (canMakeRequest t identifier (snd run))) !! identifier =
    Some {| requests := 1; windowStart := t; blocked := false |}.
Proof.
  intros Hmax Hopen Hlen Hin Hlater. cbv zeta.
  set (fresh := {| requests := 1; windowStart := t0; blocked := false |}).
  assert (Hfirst : canMakeRequest t0 identifier rl
                   = (true, store rl identifier fresh)).
  { unfold canMakeRequest.
    destruct Hopen as [->|(info & -> & Hexp)]; [reflexivity|].
    destruct (Z.leb_spec (windowMs rl) (t0 - windowStart info)); [reflexivity|lia]. }
  cbn [canMakeRequests]. rewrite Hfirst.
  destruct (exists_last (l := times)) as (inside & last & ->).
  { intros ->. cbn in Hlen. lia. }
  rewrite length_app in Hlen. cbn [length] in Hlen.
  apply Forall_app in Hin as [Hinside Hlast].
  apply Forall_cons in Hlast as [Hlast _].
  pose proof (canMakeRequests_admitted identifier inside
                (store rl identifier fresh) fresh
                (store_lookup rl identifier fresh)) as Hrun.
  cbn [requests windowStart blocked fresh store maxRequests windowMs] in Hrun.
  destruct Hrun as (Hans & Hst & Hmx & Hwin); [exact Hinside|lia|].
  assert (Hsplit : forall (l1 l2 : list Z) r,
    canMakeRequests (l1 ++ l2) identifier r =
    let '(b1, r1) := canMakeRequests l1 identifier r in
    let '(b2, r2) := canMakeRequests l2 identifier r1 in
    (b1 ++ b2, r2)).
  { induction l1 as [|x l1 IH]; intros l2 r; cbn [canMakeRequests app].
    - destruct (canMakeRequests l2 identifier r); reflexivity.
    - destruct (canMakeRequest x identifier r) as [b r'].
      rewrite IH. destruct (canMakeRequests l1 identifier r') as [b1 r1].
      destruct (canMakeRequests l2 identifier r1); reflexivity. }
  rewrite Hsplit.
  destruct (canMakeRequests inside identifier (store rl identifier fresh))
    as [bs rl1] eqn:Hrun1.
  cbn [fst snd] in Hans, Hst, Hmx, Hwin.
  set (full := {| requests := 1 + Z.of_nat (length inside);
                  windowStart := t0; blocked := true |}).
  assert (Hblock : canMakeRequest last identifier rl1
                   = (false, store rl1 identifier full)).
  { unfold canMakeRequest. rewrite Hst. cbn [windowStart requests blocked].
    rewrite Hwin, Hmx.
    destruct (Z.leb_spec (windowMs rl) (last - t0)); [lia|].
    destruct (Z.leb_spec (maxRequests rl) (1 + Z.of_nat (length inside))); [|lia].
    reflexivity. }
  cbn [canMakeRequests]. rewrite Hblock. cbn [fst snd]. split.
  - rewrite Hans. change (true :: replicate (length inside) true ++ [false])
      with (replicate (S (length inside)) true ++ [false]).
    do 2 f_equal. lia.
  - unfold canMakeRequest. rewrite store_lookup.
    cbn [windowStart store windowMs full]. rewrite Hwin.
    destruct (Z.leb_spec (windowMs rl) (t - t0)); [|lia].
    cbn [fst snd]. split; [reflexivity|apply store_lookup].
Qed.

Lemma fixed_window_witness :
  let run := canMakeRequests [0; 10; 20; 30; 40; 50] "search" (create 5 1000) in
  fst run = [true; true; true; true; true; false] /\
  fst (canMakeRequest 1000 "search" (snd run)) = true /\
  requestCounts (snd (canMakeRequest 1000 "search" (snd run))) !! "search"%string =
    Some {| requests := 1; windowStart := 1000; blocked := false |}.
Proof.
  apply (fixed_window (create 5 1000) "search" 0 [10; 20; 30; 40; 50] 1000).
  - cbn. lia.
  - left. reflexivity.
  - reflexivity.
  - repeat constructor.
  - cbn. lia.
Defined.

(** C10, as stated, fails for a negative [maxRequests]: without an active
    window [getRemainingRequests] returns [maxRequests] itself. *)
Lemma negative_limit_remaining_is_negative :
  fst (getRemainingRequests 0 "search" (create (-1) 1000)) = -1.
Proof. reflexivity. Qed.

(** C10 (amended): [getRemainingRequests] and [getResetTime] leave the
    limiter as it is, so an admission check after them decides as it would
    have without them; [getRemainingRequests] returns [maxRequests] for an
    identifier without an active window, and never a negative number when
    [maxRequests] is not negative. *)
Theorem observers_are_pure (rl : RateLimiter.t) (identifier : string)
    (now : Z) :
  snd (getRemainingRequests now identifier rl) = rl /\
  snd (getResetTime now identifier rl) = rl /\
  (forall now' id',
     canMakeRequest now' id' (snd (getRemainingRequests now identifier rl))
       = canMakeRequest now' id' rl /\
     canMakeRequest now' id' (snd (getResetTime now identifier rl))
       = canMakeRequest now' id' rl) /\
  (requestCounts rl !! identifier = None \/
   (exists info, requestCounts rl !! identifier = Some info /\
                 windowMs rl <= now - windowStart info) ->
   fst (getRemainingRequests now identifier rl) = maxRequests rl) /\
  (0 <= maxRequests rl -> 0 <= fst (getRemainingRequests now identifier rl)).
Proof.
  assert (H1 : snd (getRemainingRequests now identifier rl) = rl).
  { unfold getRemainingRequests.
    destruct (requestCounts rl !! identifier) as [info|]; [|reflexivity].
    destruct (windowMs rl <=? now - windowStart info); reflexivity. }
  assert (H2 : snd (getResetTime now identifier rl) = rl).
  { unfold getResetTime.
    destruct (requestCounts rl !! identifier); reflexivity. }
  split; [exact H1|]. split; [exact H2|]. split; [|split].
  - intros now' id'. rewrite H1, H2. split; reflexivity.
  - unfold getRemainingRequests.
    intros [->|(info & -> & Hexp)]; [reflexivity|].
    destruct (Z.leb_spec (windowMs rl) (now - windowStart info)); [reflexivity|lia].
  - intros Hmax. unfold getRemainingRequests.
    destruct (requestCounts rl !! identifier) as [info|]; [|exact Hmax].
    destruct (windowMs rl <=? now - windowStart info); cbn [fst]; lia.
Qed.

Lemma observers_are_pure_witness :
  fst (getRemainingRequests 0 "search" (create 5 1000)) = 5 /\
  0 <= fst (getRemainingRequests 0 "search" (create 5 1000)).
Proof.
  destruct (observers_are_pure (create 5 1000) "search" 0)
    as (_ & _ & _ & Hidle & Hpos).
  split; [apply Hidle; left; reflexivity|apply Hpos; cbn; lia].
Defined.

(** The windows of different identifiers are independent: an admission
    check for one identifier leaves the entry of every other one as it
    is. *)
Theorem canMakeRequest_other_identifier (rl : RateLimiter.t) (now : Z)
    (identifier other : string) :
  other <> identifier ->
  requestCounts (snd (canMakeRequest now identifier rl)) !! other
    = requestCounts rl !! other.
Proof.
  intros Hne. unfold canMakeRequest.
  destruct (requestCounts rl !! identifier) as [info|].
  - destruct (windowMs rl <=? now - windowStart info);
      [|destruct (maxRequests rl <=? requests info)];
      cbn [snd store requestCounts]; apply lookup_insert_ne; congruence.
  - cbn [snd store requestCounts]. apply lookup_insert_ne. congruence.
Qed.

Lemma canMakeRequest_other_identifier_witness :
  requestCounts (snd (canMakeRequest 0 "search" (create 5 1000))) !! "token"%string
    = requestCounts (create 5 1000) !! "token"%string.
Proof.
  apply (canMakeRequest_other_identifier (create 5 1000) 0 "search" "token").
  discriminate.
Defined.

End Window.

(** ** RateLimiter: quota accounting, reset time, clean-up and waiting *)
Section Quota.
Import Types RateLimiter Spec.
Local Open Scope Z_scope.

Lemma getRemainingRequests_value (rl : RateLimiter.t) (identifier : string)
    (now : Z) :
  fst (getRemainingRequests now identifier rl) =
  match requestCounts rl !! identifier with
  | Some info =>
      if windowMs rl <=? now - windowStart info then maxRequests rl
      else Z.max 0 (maxRequests rl - requests info)
  | None => maxRequests rl
  end.
Proof.
  unfold getRemainingRequests.
  destruct (requestCounts rl !! identifier) as [info|]; [|reflexivity].
  destruct (windowMs rl <=? now - windowStart info); reflexivity.
Qed.

(** Every admitted call lowers the remaining count by exactly one, and a
    call is refused only when nothing remains. *)
Theorem remaining_accounting (rl : RateLimiter.t) (identifier : string)
    (now : Z) :
  1 <= maxRequests rl -> 0 < windowMs rl ->
  let before := fst (getRemainingRequests now identifier rl) in
  let call := canMakeRequest now identifier rl in
  let after := fst (getRemainingRequests now identifier (snd call)) in
  (fst call = true /\ after = before - 1) \/
  (fst call = false /\ before = 0 /\ after = 0).
Proof.
  intros Hmax Hwin. cbv zeta. rewrite !getRemainingRequests_value.
  unfold canMakeRequest.
  destruct (requestCounts rl !! identifier) as [info|] eqn:Hinfo.
  - destruct (Z.leb_spec (windowMs rl) (now - windowStart info)) as [Hexp|Hact].
    + left. cbn [fst snd]. split; [reflexivity|]. rewrite store_lookup.
      cbn [store windowMs maxRequests windowStart requests].
      destruct (Z.leb_spec (windowMs rl) (now - now)); lia.
    + destruct (Z.leb_spec (maxRequests rl) (requests info)) as [Hfull|Hroom];
        cbn [fst snd]; rewrite store_lookup;
        cbn [store windowMs maxRequests windowStart requests];
        (destruct (Z.leb_spec (windowMs rl) (now - windowStart info)); [lia|]);
        [right|left]; repeat split; lia.
  - left. cbn [fst snd]. split; [reflexivity|]. rewrite store_lookup.
    cbn [store windowMs maxRequests windowStart requests].
    destruct (Z.leb_spec (windowMs rl) (now - now)); lia.
Qed.

Lemma remaining_accounting_witness :
  fst (canMakeRequest 0 "search" (create 5 1000)) = true /\
  fst (getRemainingRequests 0 "search"
         (snd (canMakeRequest 0 "search" (create 5 1000)))) = 4.
Proof.
  destruct (remaining_accounting (create 5 1000) "search" 0)
    as [[Hb Hr]|[Hb _]]; [cbn; lia|cbn; lia| |discriminate Hb].
  split; [exact Hb|]. rewrite Hr. reflexivity.
Defined.

(** The reset time is when the window rolls over: a call at that time is
    admitted, and while the window is full every earlier call is
    refused. *)
Theorem getResetTime_admits (rl : RateLimiter.t) (identifier : string)
    (now : Z) (info : RateLimitInfo) :
  requestCounts rl !! identifier = Some info ->
  let resetTime := fst (getResetTime now identifier rl) in
  resetTime = windowStart info + windowMs rl /\
  fst (canMakeRequest resetTime identifier rl) = true /\
  (maxRequests rl <= requests info ->
   forall t, t < resetTime -> fst (canMakeRequest t identifier rl) = false).
Proof.
  intros Hinfo. cbv zeta. unfold getResetTime, canMakeRequest. rewrite Hinfo.
  cbn [fst]. split; [reflexivity|]. split.
  - destruct (Z.leb_spec (windowMs rl)
                (windowStart info + windowMs rl - windowStart info)); [reflexivity|lia].
  - intros Hfull t Ht.
    destruct (Z.leb_spec (windowMs rl) (t - windowStart info)); [lia|].
    destruct (Z.leb_spec (maxRequests rl) (requests info)); [reflexivity|lia].
Qed.

Lemma getResetTime_admits_witness :
  fst (getResetTime 5 "search" (snd (canMakeRequest 0 "search" (create 1 1000))))
    = 1000 /\
  fst (canMakeRequest 1000 "search"
         (snd (canMakeRequest 0 "search" (create 1 1000)))) = true.
Proof.
  destruct (getResetTime_admits
              (snd (canMakeRequest 0 "search" (create 1 1000))) "search" 5
              {| requests := 1; windowStart := 0; blocked := false |})
    as (Ht & Ha & _); [reflexivity|].
  split; [exact Ht|]. rewrite Ht in Ha. exact Ha.
Defined.

Lemma fold_delete_lookup {V} (ks : list string) :
  forall (m : gmap string V) (i : string),
  fold_left (fun counts k => delete k counts) ks m !! i =
  if decide (i ∈ ks) then None else m !! i.
Proof.
  induction ks as [|k ks IH]; intros m i; cbn [fold_left].
  - destruct (decide (i ∈ [])) as [H|_]; [|reflexivity].
    apply not_elem_of_nil in H. contradiction.
  - rewrite IH. destruct (decide (i ∈ ks)) as [Hin|Hnin].
    + rewrite decide_True by (apply elem_of_cons; auto). reflexivity.
    + destruct (decide (i = k)) as [->|Hne].
      * rewrite decide_True by (apply elem_of_cons; auto).
        apply lookup_delete_eq.
      * rewrite decide_False by (rewrite elem_of_cons; tauto).
        apply lookup_delete_ne. congruence.
Qed.

(** What [cleanup] leaves of an entry. *)
Lemma cleanup_lookup (rl : RateLimiter.t) (now : Z) (identifier : string) :
  requestCounts (cleanup now rl) !! identifier =
  match requestCounts rl !! identifier with
  | Some info =>
      if windowMs rl * 2 <=? now - windowStart info then None else Some info
  | None => None
  end.
Proof.
  unfold cleanup. cbn [requestCounts]. rewrite fold_delete_lookup.
  set (stale := fun entry : string * RateLimitInfo =>
                  windowMs rl * 2 <=? now - windowStart (snd entry)).
  destruct (decide (identifier ∈ map fst (List.filter stale
                      (map_to_list (requestCounts rl))))) as [Hin|Hnin].
  - apply list_elem_of_In, in_map_iff in Hin as [[k info] [Hk Hf]].
    cbn in Hk. subst k. apply filter_In in Hf as [Hm Hs].
    apply list_elem_of_In, elem_of_map_to_list in Hm. rewrite Hm.
    unfold stale in Hs. cbn in Hs. rewrite Hs. reflexivity.
  - destruct (requestCounts rl !! identifier) as [info|] eqn:Hinfo; [|reflexivity].
    destruct (windowMs rl * 2 <=? now - windowStart info) eqn:Hs; [|reflexivity].
    exfalso. apply Hnin. apply list_elem_of_In, in_map_iff.
    exists (identifier, info). split; [reflexivity|].
    apply filter_In. split; [|exact Hs].
    apply list_elem_of_In, elem_of_map_to_list. exact Hinfo.
Qed.

(** [cleanup] removes exactly the entries that are idle for two windows,
    and no later admission check can tell: at any time from the clean-up
    on, the check answers and leaves the identifier's entry as it would
    have without the clean-up. *)
Theorem cleanup_is_transparent (rl : RateLimiter.t) (now now' : Z)
    (identifier : string) :
  0 <= windowMs rl -> now <= now' ->
  fst (canMakeRequest now' identifier (cleanup now rl))
    = fst (canMakeRequest now' identifier rl) /\
  requestCounts (snd (canMakeRequest now' identifier (cleanup now rl)))
    !! identifier
    = requestCounts (snd (canMakeRequest now' identifier rl)) !! identifier /\
  (forall info, requestCounts rl !! identifier = Some info ->
     now - windowStart info < windowMs rl * 2 ->
     requestCounts (cleanup now rl) !! identifier = Some info) /\
  (forall info, requestCounts rl !! identifier = Some info ->
     windowMs rl * 2 <= now - windowStart info ->
     requestCounts (cleanup now rl) !! identifier = None).
Proof.
  intros Hwin Hlater.
  pose proof (cleanup_lookup rl now identifier) as Hl.
  split; [|split; [|split]].
  - unfold canMakeRequest. rewrite Hl.
    destruct (requestCounts rl !! identifier) as [info|]; [|reflexivity].
    destruct (Z.leb_spec (windowMs rl * 2) (now - windowStart info)).
    + destruct (Z.leb_spec (windowMs rl) (now' - windowStart info)); [reflexivity|lia].
    + cbn [cleanup windowMs maxRequests].
      destruct (windowMs rl <=? now' - windowStart info); [reflexivity|].
      destruct (maxRequests rl <=? requests info); reflexivity.
  - unfold canMakeRequest. rewrite Hl.
    destruct (requestCounts rl !! identifier) as [info|];
      [|cbn [snd]; rewrite !store_lookup; reflexivity].
    destruct (Z.leb_spec (windowMs rl * 2) (now - windowStart info)).
    + destruct (Z.leb_spec (windowMs rl) (now' - windowStart info)); [|lia].
      cbn [snd]. rewrite !store_lookup. reflexivity.
    + cbn [cleanup windowMs maxRequests].
      destruct (windowMs rl <=? now' - windowStart info);
        [|destruct (maxRequests rl <=? requests info)];
        cbn [snd]; rewrite !store_lookup; reflexivity.
  - intros info Hinfo Hfresh. rewrite Hl, Hinfo.
    destruct (Z.leb_spec (windowMs rl * 2) (now - windowStart info)); [lia|reflexivity].
  - intros info Hinfo Hstale. rewrite Hl, Hinfo.
    destruct (Z.leb_spec (windowMs rl * 2) (now - windowStart info)); [reflexivity|lia].
Qed.

Lemma cleanup_is_transparent_witness :
  fst (canMakeRequest 5000 "search"
         (cleanup 4000 (snd (canMakeRequest 0 "search" (create 1 1000)))))
    = fst (canMakeRequest 5000 "search"
             (snd (canMakeRequest 0 "search" (create 1 1000)))).
Proof.
  destruct (cleanup_is_transparent
              (snd (canMakeRequest 0 "search" (create 1 1000))) 4000 5000 "search")
    as (H & _); [vm_compute; discriminate|lia|].
  exact H.
Defined.


Lemma canMakeRequest_config (rl : RateLimiter.t) (now : Z) (identifier : string) :
  maxRequests (snd (canMakeRequest now identifier rl)) = maxRequests rl /\
  windowMs (snd (canMakeRequest now identifier rl)) = windowMs rl.
Proof.
  unfold canMakeRequest.
  destruct (requestCounts rl !! identifier) as [info|].
  - destruct (windowMs rl <=? now - windowStart info);
      [|destruct (maxRequests rl <=? requests info)]; split; reflexivity.
  - split; reflexivity.
Qed.







(** After [reset], the identifier is admitted at once into a fresh window
    and every other identifier is as before; after [resetAll], every
    identifier is admitted. *)
Theorem reset_reopens (rl : RateLimiter.t) (identifier : string) (now : Z) :
  canMakeRequest now identifier (reset identifier rl) =
    (true, store (reset identifier rl) identifier
             {| requests := 1; windowStart := now; blocked := false |}) /\
  (forall other, other <> identifier ->
     requestCounts (reset identifier rl) !! other = requestCounts rl !! other) /\
  (forall any, fst (canMakeRequest now any (resetAll rl)) = true).
Proof.
  split; [|split].
  - unfold canMakeRequest, reset. cbn [requestCounts].
    rewrite lookup_delete_eq. reflexivity.
  - intros other Hne. unfold reset. cbn [requestCounts].
    apply lookup_delete_ne. congruence.
  - intros any. unfold canMakeRequest, resetAll. cbn [requestCounts].
    rewrite lookup_empty. reflexivity.
Qed.

End Quota.

(** ** AggregatorService: pages, sorting and caching *)
Section Listing.
Import JS Types AggregatorService Spec Samples.
Local Open Scope Z_scope.

Lemma sort_insert_Permutation {A} (cmp : A -> A -> number) (x : A) (l : list A) :
  Permutation (x :: l) (sort_insert cmp x l).
Proof.
  induction l as [|y l IH]; cbn [sort_insert]; [reflexivity|].
  destruct (cmp y x <? 0)%float; [|reflexivity].
  rewrite perm_swap. constructor. exact IH.
Qed.

Lemma sort_Permutation {A} (cmp : A -> A -> number) (l : list A) :
  Permutation l (JS.sort cmp l).
Proof.
  unfold JS.sort. induction l as [|x l IH]; cbn [foldr]; [reflexivity|].
  rewrite <- sort_insert_Permutation. constructor. exact IH.
Qed.

(** Sorting neither drops nor repeats a token, whatever the field and the
    order asked for. *)
Theorem sortTokens_permutation (tokens : list Token) (sortBy order : string) :
  Permutation tokens (sortTokens tokens sortBy order).
Proof. apply sort_Permutation. Qed.

Lemma slice_In {A} (l : list A) (a b : jsint) (x : A) :
  In x (slice l a b) -> In x l.
Proof.
  unfold slice. cbv zeta. rewrite <- !list_elem_of_In. intros H.
  apply subseteq_take in H. apply subseteq_drop in H. exact H.
Qed.

Lemma slice_length {A} (l : list A) (s : jsint) (n : Z) :
  0 <= n -> Z.of_nat (length (slice l s (add_int s (JInt n)))) <= n.
Proof.
  intros Hn. unfold slice. cbv zeta. rewrite length_take.
  etransitivity; [apply inj_le, Nat.le_min_l|].
  destruct s as [|c]; cbn [add_int to_integer].
  - change (0 <? 0) with false. cbv iota. lia.
  - destruct (Z.ltb_spec c 0), (Z.ltb_spec (c + n) 0); lia.
Qed.

Lemma slice_NaN_end {A} (l : list A) (s : jsint) : slice l s JNaN = [].
Proof.
  unfold slice. cbn [to_integer]. change (0 <? 0) with false. cbv iota zeta.
  match goal with |- take ?n _ = _ => replace n with 0%nat end;
    [reflexivity|].
  destruct (Z.ltb_spec (to_integer s) 0); lia.
Qed.

(** What a page can hold.  Every token of a page comes from the resolved
    token set and passes the filters; [total] counts the tokens that pass
    the filters, whatever the cursor and the limit; the page is never
    longer than a limit that is not negative, for any cursor; and it is
    empty when the limit is NaN. *)
Theorem getFilteredTokens_page_bounds (up : Upstream)
    (cache cache' : CacheService.t) (q : TokenQuery)
    (page : PaginatedResponse Token) :
  getFilteredTokens up cache q = (Ok page, cache') ->
  let period := default "24h"%string (period q) in
  let minVolume := default 0%float (minVolume q) in
  exists tokens,
    resolveTokens up cache (default ""%string (search q)) = (Ok tokens, cache') /\
    (forall t, In t (data page) ->
       In t tokens /\
       (volume_sol t <? minVolume)%float = false /\
       (period = "1h"%string -> price_1hr_change t <> None)) /\
    total (pagination page)
      = Z.of_nat (length (applyFilters tokens period minVolume)) /\
    (forall n, default (JInt 30) (limit q) = JInt n -> 0 <= n ->
       Z.of_nat (length (data page)) <= n) /\
    (default (JInt 30) (limit q) = JNaN -> data page = []).
Proof.
  unfold getFilteredTokens. intros Hrun. cbv zeta.
  destruct (resolveTokens up cache (default ""%string (search q)))
    as [[tokens|e] cache1] eqn:Hres; [|discriminate].
  injection Hrun as <- <-. exists tokens. split; [reflexivity|].
  unfold paginate. cbn [data pagination total].
  split; [|split; [|split]].
  - intros t Ht. apply slice_In in Ht.
    apply (Permutation_in t (Permutation_sym (sort_Permutation _ _))) in Ht.
    unfold applyFilters in Ht. apply filter_In in Ht as [Hin Hkeep].
    split; [exact Hin|].
    destruct (volume_sol t <? default 0%float (minVolume q))%float; [discriminate|].
    split; [reflexivity|]. intros Hp. rewrite Hp in Hkeep. cbn in Hkeep.
    destruct (price_1hr_change t); [discriminate|discriminate].
  - unfold sortTokens. f_equal. symmetry.
    apply Permutation_length, sort_Permutation.
  - intros n Hlim Hn. rewrite Hlim. apply slice_length. exact Hn.
  - intros Hlim. rewrite Hlim.
    replace (add_int (startIndexOf (cursor q)) JNaN) with JNaN
      by (destruct (startIndexOf (cursor q)); reflexivity).
    apply slice_NaN_end.
Qed.

Lemma getFilteredTokens_page_bounds_witness :
  exists page,
    getFilteredTokens three_ranked disconnected
      {| limit := Some (JInt 2); cursor := Some "-1"%string;
         sortBy := None; order := None; period := None; search := None;
         minVolume := None |} = (Ok page, disconnected) /\
    Z.of_nat (length (data page)) <= 2.
Proof.
  eexists. split; [vm_compute; reflexivity|].
  edestruct (getFilteredTokens_page_bounds three_ranked disconnected disconnected
               {| limit := Some (JInt 2); cursor := Some "-1"%string;
                  sortBy := None; order := None; period := None; search := None;
                  minVolume := None |})
    as (tokens & _ & _ & _ & Hlen & _); [vm_compute; reflexivity|].
  apply Hlen; [reflexivity|lia].
Defined.














End Listing.

(** ** AggregatorService: what deduplication keeps *)
Section Addresses.
Import JS Types AggregatorService Spec Samples.

Lemma Map_has_elem_of {V} (m : Map V) (key : string) :
  Map_has m key = bool_decide (key ∈ map fst m).
Proof.
  unfold Map_has. induction m as [|[k v] m IH]; cbn [Map_get map fst].
  - reflexivity.
  - destruct (String.eqb_spec k key) as [->|Hne].
    + symmetry. apply bool_decide_eq_true. left.
    + rewrite IH. apply bool_decide_ext. rewrite elem_of_cons.
      split; [auto|]. intros [->|H]; [contradiction|exact H].
Qed.

Lemma merge_step_keys (tokenMap : Map Token) (token : Token) :
  map fst (merge_step tokenMap token) =
  if bool_decide (address_key token ∈ map fst tokenMap) then map fst tokenMap
  else map fst tokenMap ++ [address_key token].
Proof.
  unfold merge_step, address_key.
  rewrite <- (Map_has_elem_of tokenMap).
  destruct (Map_has tokenMap _) eqn:Hhas; cbn [negb].
  - destruct (mergeTokenData _ _); [|reflexivity].
    rewrite Map_set_keys, Hhas. reflexivity.
  - rewrite Map_set_keys, Hhas. reflexivity.
Qed.

Lemma fold_merge_step_keys (tokens : list Token) (tokenMap : Map Token) :
  map fst (fold_left merge_step tokens tokenMap) =
  fold_left (fun seen key => if bool_decide (key ∈ seen) then seen
                             else seen ++ [key])
            (map address_key tokens) (map fst tokenMap).
Proof.
  revert tokenMap. induction tokens as [|t ts IH]; intros m; [reflexivity|].
  cbn [fold_left map]. rewrite IH, merge_step_keys. reflexivity.
Qed.

(** Deduplication loses no address and invents none: the lower-cased
    addresses of the result are those of the input, each once, in the
    order in which they first occur. *)
Theorem mergeAndDeduplicateTokens_addresses (tokens : list Token) :
  map address_key (mergeAndDeduplicateTokens tokens)
    = first_seen (map address_key tokens).
Proof.
  unfold mergeAndDeduplicateTokens, Map_values, first_seen.
  destruct (fold_merge_step_keyed tokens []) as [_ Hall];
    [split; constructor|].
  etransitivity; [|exact (fold_merge_step_keys tokens [])].
  rewrite map_map. apply map_ext_Forall.
  eapply Forall_impl; [exact Hall|]. intros [k v] H. exact H.
Qed.

Lemma Map_set_fresh {V} (m : Map V) (key : string) (v : V) :
  Map_has m key = false -> Map_set m key v = m ++ [(key, v)].
Proof.
  unfold Map_has. induction m as [|[k x] m IH]; cbn [Map_get Map_set app];
    [reflexivity|].
  destruct (String.eqb k key); [discriminate|].
  intros H. rewrite (IH H). reflexivity.
Qed.

Lemma fold_merge_step_distinct (tokens pre : list Token) :
  NoDup (map address_key (pre ++ tokens)) ->
  fold_left merge_step tokens (map (fun t => (address_key t, t)) pre)
    = map (fun t => (address_key t, t)) (pre ++ tokens).
Proof.
  revert pre. induction tokens as [|t ts IH]; intros pre Hnd.
  - rewrite app_nil_r. reflexivity.
  - cbn [fold_left].
    assert (Hfresh : Map_has (map (fun t => (address_key t, t)) pre)
                       (address_key t) = false).
    { rewrite Map_has_elem_of. apply bool_decide_eq_false.
      rewrite map_map. cbn [fst].
      rewrite map_app in Hnd. apply NoDup_app in Hnd as (_ & Hdis & _).
      intros Hin. apply (Hdis _ Hin). left. }
    unfold merge_step at 2. fold (address_key t). rewrite Hfresh. cbn [negb].
    rewrite (Map_set_fresh _ _ _ Hfresh).
    change [(address_key t, t)] with (map (fun t => (address_key t, t)) [t]).
    rewrite <- map_app, IH by (rewrite <- app_assoc; exact Hnd).
    rewrite <- app_assoc. reflexivity.
Qed.

(** Tokens whose lower-cased addresses are all different pass through
    deduplication untouched: same records, same order. *)
Theorem mergeAndDeduplicateTokens_distinct (tokens : list Token) :
  NoDup (map address_key tokens) ->
  mergeAndDeduplicateTokens tokens = tokens.
Proof.
  intros Hnd. unfold mergeAndDeduplicateTokens, Map_values.
  pose proof (fold_merge_step_distinct tokens [] Hnd) as Hfold.
  cbn [map app] in Hfold. rewrite Hfold, map_map. cbn [snd]. apply map_id.
Qed.

Lemma mergeAndDeduplicateTokens_distinct_witness :
  mergeAndDeduplicateTokens [ranked_first; ranked_second; ranked_third]
    = [ranked_first; ranked_second; ranked_third].
Proof.
  apply (mergeAndDeduplicateTokens_distinct
           [ranked_first; ranked_second; ranked_third]).
  apply (bool_decide_unpack _). vm_compute. exact I.
Defined.

End Addresses.

(** ** CacheService and the aggregator's use of it *)
Section Caching.
Import JS Types AggregatorService Spec Samples.
Local Open Scope Z_scope.

Lemma fold_delete_size {V} (ks : list string) :
  forall (m : gmap string V),
  NoDup ks -> (forall k, k ∈ ks -> is_Some (m !! k)) ->
  (size (fold_left (fun store k => delete k store) ks m) + length ks
   = size m)%nat.
Proof.
  induction ks as [|k ks IH]; intros m Hnd Hin; cbn [fold_left length].
  - lia.
  - apply NoDup_cons in Hnd as [Hk Hnd].
    assert (Hrest : forall k', k' ∈ ks -> is_Some (delete k m !! k')).
    { intros k' Hk'. rewrite lookup_delete_ne by (intros ->; contradiction).
      apply Hin. right. exact Hk'. }
    pose proof (IH (delete k m) Hnd Hrest) as Hsize.
    rewrite map_size_delete_Some in Hsize by (apply Hin; left).
    assert (Hpos : (0 < size m)%nat).
    { destruct (Hin k) as [v Hv]; [left|].
      apply Nat.neq_0_lt_0. intros H0. apply map_size_empty_inv in H0.
      subst m. rewrite lookup_empty in Hv. discriminate. }
    lia.
Qed.

Lemma NoDup_List_filter {A} (f : A -> bool) (l : list A) :
  NoDup l -> NoDup (List.filter f l).
Proof.
  induction 1 as [|x l Hx Hl IH]; cbn [List.filter]; [constructor|].
  destruct (f x); [|exact IH]. constructor; [|exact IH].
  rewrite list_elem_of_In, filter_In, <- list_elem_of_In. tauto.
Qed.

Lemma matching_keys (glob : string -> string -> bool)
    (m : gmap string (list Token)) (pattern key : string) :
  key ∈ List.filter (glob pattern) (map fst (map_to_list m))
  <-> glob pattern key = true /\ is_Some (m !! key).
Proof.
  rewrite list_elem_of_In, filter_In, in_map_iff. split.
  - intros [[[k v] [Hk Hin]] Hg]. cbn in Hk. subst k. split; [exact Hg|].
    apply list_elem_of_In, elem_of_map_to_list in Hin. eauto.
  - intros [Hg [v Hv]]. split; [|exact Hg]. exists (key, v).
    split; [reflexivity|]. apply list_elem_of_In, elem_of_map_to_list, Hv.
Qed.

(** What a [get] sees after [deletePattern], connected or not. *)
Lemma deletePattern_get (glob : string -> string -> bool)
    (c : CacheService.t) (pattern key : string) :
  CacheService.get (snd (CacheService.deletePattern glob c pattern)) key
    = if glob pattern key then None else CacheService.get c key.
Proof.
  unfold CacheService.deletePattern.
  destruct (CacheService.isConnected c) eqn:Hconn; cbn [negb snd].
  2:{ unfold CacheService.get. rewrite Hconn.
      destruct (glob pattern key); reflexivity. }
  set (keys := List.filter (glob pattern)
                 (map fst (map_to_list (CacheService.client c)))).
  assert (Hkeys : forall key, key ∈ keys <->
            glob pattern key = true /\ is_Some (CacheService.client c !! key))
    by (intros k; apply matching_keys).
  destruct (Nat.eqb_spec (length keys) 0) as [Hnone|Hsome]; cbn [snd].
  - unfold CacheService.get. rewrite Hconn. cbn [negb].
    destruct (glob pattern key) eqn:Hg; [|reflexivity].
    destruct (CacheService.client c !! key) as [v|] eqn:Hv; [|reflexivity].
    exfalso. apply length_zero_iff_nil in Hnone.
    assert (Hin : key ∈ keys) by (apply Hkeys; eauto).
    rewrite Hnone in Hin. apply not_elem_of_nil in Hin. exact Hin.
  - unfold CacheService.get.
    cbn [CacheService.client CacheService.isConnected].
    rewrite Hconn. cbn [negb]. rewrite fold_delete_lookup.
    destruct (decide (key ∈ keys)) as [Hin|Hnin].
    + apply Hkeys in Hin as [-> _]. reflexivity.
    + destruct (glob pattern key) eqn:Hg; [|reflexivity].
      destruct (CacheService.client c !! key) as [v|] eqn:Hv; [|reflexivity].
      exfalso. apply Hnin, Hkeys. eauto.
Qed.

(** [deletePattern] removes every stored key the pattern matches and no
    other.  On a connected cache the number it returns is the number of
    entries that went away, and the cache stays connected; on a
    disconnected cache it returns 0 and changes nothing. *)
Theorem deletePattern_removes_matching (glob : string -> string -> bool)
    (c : CacheService.t) (pattern : string) :
  let r := CacheService.deletePattern glob c pattern in
  (forall key, CacheService.get (snd r) key
               = if glob pattern key then None else CacheService.get c key) /\
  if CacheService.isConnected c then
    fst r = Z.of_nat (size (CacheService.client c))
            - Z.of_nat (size (CacheService.client (snd r))) /\
    CacheService.isConnected (snd r) = true
  else r = (0, c).
Proof.
  cbv zeta. split; [intros key; apply deletePattern_get|].
  unfold CacheService.deletePattern.
  destruct (CacheService.isConnected c) eqn:Hconn; cbn [negb]; [|reflexivity].
  set (keys := List.filter (glob pattern)
                 (map fst (map_to_list (CacheService.client c)))).
  destruct (Nat.eqb_spec (length keys) 0) as [Hnone|Hsome]; cbn [fst snd].
  - split; [lia|exact Hconn].
  - cbn [CacheService.client CacheService.isConnected].
    split; [|reflexivity].
    pose proof (fold_delete_size keys (CacheService.client c)) as Hsize.
    rewrite <- Hsize; [lia| |].
    + apply NoDup_List_filter, NoDup_fst_map_to_list.
    + intros k Hk. apply matching_keys in Hk as [_ Hk]. exact Hk.
Qed.

(** [invalidateCache] without a pattern, or with the empty one, clears
    every entry of the aggregator, provided the key listing matches
    "aggregated:*" against the keys that start with "aggregated:": no
    search and no "popular" listing is answered from the cache after it
    until it is stored again. *)
Theorem invalidateCache_clears (glob : string -> string -> bool)
    (cache : CacheService.t) (pattern : option string) :
  (forall rest, glob (CACHE_PREFIX ++ "*")%string (CACHE_PREFIX ++ rest)%string
                = true) ->
  pattern = None \/ pattern = Some ""%string ->
  forall rest,
    CacheService.get (snd (invalidateCache glob cache pattern))
      (CACHE_PREFIX ++ rest)%string = None.
Proof.
  intros Hglob Hpattern rest. unfold invalidateCache.
  destruct Hpattern as [-> | ->]; cbn [String.eqb];
    rewrite deletePattern_get, Hglob; reflexivity.
Qed.

Lemma invalidateCache_clears_witness :
  CacheService.get (snd (invalidateCache star_glob holds_two_searches None))
    (CACHE_PREFIX ++ "search:sol")%string = None.
Proof.
  apply (invalidateCache_clears star_glob holds_two_searches None);
    [intros rest; reflexivity|left; reflexivity].
Defined.






End Caching.

(** ** WebSocketService: a poll that reads nothing new *)
Section Quiet.
Import JS Types WebSocketService Spec Samples.
Import SpecFloat.
Local Open Scope float_scope.

Lemma SFsub_diag prec emax (x : spec_float) :
  match SFsub prec emax x x with
  | S754_zero _ | S754_nan => True
  | _ => False
  end.
Proof.
  destruct x as [s|s| |s m e]; cbn [SFsub].
  - destruct s; exact I.
  - destruct s; exact I.
  - exact I.
  - cbv zeta. rewrite Z.sub_diag. exact I.
Qed.

(** [x - x] is a zero or NaN, and neither exceeds a positive threshold. *)
Lemma ltb_abs_sub_diag (thr x : float) :
  (0 <? thr) = true -> (thr <? abs (x - x)) = false.
Proof.
  rewrite !FloatAxioms.ltb_spec, FloatAxioms.abs_spec, FloatAxioms.sub_spec.
  unfold SF64sub. pose proof (SFsub_diag prec emax (Prim2SF x)) as H.
  change (Prim2SF 0) with (S754_zero false).
  destruct (SFsub prec emax (Prim2SF x) (Prim2SF x)) as [s|s| |s m e];
    try contradiction; unfold SFltb; cbn [SFabs];
    destruct (Prim2SF thr) as [s'|[]| |[] m' e']; cbn; congruence.
Qed.

Lemma checkPrice_same (c : Cycle) (i : nat) (t : Token) : checkPrice c i t t = c.
Proof.
  unfold checkPrice, Math_abs.
  rewrite (ltb_abs_sub_diag PRICE_THRESHOLD) by reflexivity. reflexivity.
Qed.

Lemma checkVolume_same (c : Cycle) (i : nat) (t : Token) : checkVolume c i t t = c.
Proof.
  unfold checkVolume, Math_abs.
  rewrite (ltb_abs_sub_diag VOLUME_THRESHOLD) by reflexivity. reflexivity.
Qed.

Lemma remember_same (ws : WebSocketService.t) (t : Token) :
  previousTokenData ws !! token_address t = Some t -> remember ws t = ws.
Proof.
  intros H. unfold remember. rewrite (insert_id _ _ _ H).
  destruct ws; reflexivity.
Qed.

Lemma processToken_same (ws : WebSocketService.t) (c : Cycle) (i : nat)
    (t : Token) :
  token_address t = ""%string \/
  previousTokenData ws !! token_address t = Some t ->
  processToken (ws, c) (i, t) = (ws, c).
Proof.
  intros H. unfold processToken.
  destruct (String.eqb_spec (token_address t) "") as [_|Hne]; [reflexivity|].
  destruct H as [H|H]; [contradiction|].
  rewrite H, checkPrice_same, checkVolume_same, (remember_same ws t H).
  reflexivity.
Qed.

Lemma fold_processToken_same (entries : list (nat * Token))
    (ws : WebSocketService.t) (c : Cycle) :
  Forall (fun e => token_address (snd e) = ""%string \/
                   previousTokenData ws !! token_address (snd e) = Some (snd e))
         entries ->
  fold_left processToken entries (ws, c) = (ws, c).
Proof.
  induction 1 as [|[i t] entries Ht _ IH]; cbn [fold_left]; [reflexivity|].
  rewrite (processToken_same ws c i t Ht). exact IH.
Qed.

Lemma processToken_lookup (st : WebSocketService.t * Cycle) (i : nat)
    (t : Token) (a : string) :
  previousTokenData (fst (processToken st (i, t))) !! a =
  if String.eqb (token_address t) "" then previousTokenData (fst st) !! a
  else if String.eqb (token_address t) a then Some t
  else previousTokenData (fst st) !! a.
Proof.
  destruct st as [ws c]. unfold processToken.
  destruct (String.eqb (token_address t) ""); [reflexivity|].
  destruct (previousTokenData ws !! token_address t);
    cbn [fst remember emitEvent previousTokenData];
    (destruct (String.eqb_spec (token_address t) a) as [->|Hne];
     [apply lookup_insert_eq|apply lookup_insert_ne; exact Hne]).
Qed.

Lemma fold_processToken_untouched (entries : list (nat * Token)) (a : string) :
  forall st,
  a ∉ map (fun e => token_address (snd e)) entries ->
  previousTokenData (fst (fold_left processToken entries st)) !! a
    = previousTokenData (fst st) !! a.
Proof.
  induction entries as [|[i t] entries IH]; intros st Ha; [reflexivity|].
  cbn [fold_left map snd] in *. apply not_elem_of_cons in Ha as [Hne Ha].
  rewrite (IH _ Ha), processToken_lookup.
  destruct (String.eqb (token_address t) ""); [reflexivity|].
  destruct (String.eqb_spec (token_address t) a); [congruence|reflexivity].
Qed.

Lemma fold_processToken_snapshot (entries : list (nat * Token)) :
  forall st,
  NoDup (map (fun e => token_address (snd e)) entries) ->
  Forall (fun e => token_address (snd e) = ""%string \/
                   previousTokenData (fst (fold_left processToken entries st))
                     !! token_address (snd e) = Some (snd e))
         entries.
Proof.
  induction entries as [|[i t] entries IH]; intros st Hnd; [constructor|].
  cbn [map snd] in Hnd. apply NoDup_cons in Hnd as [Hfresh Hnd].
  cbn [fold_left]. constructor; [|apply IH, Hnd].
  cbn [snd]. rewrite (fold_processToken_untouched _ _ _ Hfresh).
  rewrite processToken_lookup.
  destruct (String.eqb_spec (token_address t) "") as [He|_]; [left; exact He|].
  right. rewrite String.eqb_refl. reflexivity.
Qed.

Lemma broadcast_previousTokenData (ws : WebSocketService.t) (c : Cycle) :
  previousTokenData (broadcast ws c) = previousTokenData ws.
Proof.
  unfold broadcast.
  destruct (0 <? length (updates c))%nat,
           (0 <? length (priceUpdates c))%nat,
           (0 <? length (volumeSpikes c))%nat; reflexivity.
Qed.

Lemma entries_addresses (tokens : list Token) :
  map (fun e : nat * Token => token_address (snd e))
      (combine (seq 0 (length tokens)) tokens)
    = map token_address tokens.
Proof.
  generalize 0%nat. induction tokens as [|t ts IH]; intros n; [reflexivity|].
  cbn [length seq combine map snd]. rewrite IH. reflexivity.
Qed.

(** A poll that reads, under addresses that are all different, exactly
    the tokens the previous poll read broadcasts nothing and changes
    nothing: no event of any kind, the snapshots as they were.  This holds
    whatever the prices and volumes are, NaN and infinities included. *)
Theorem same_reading_is_silent (ws : WebSocketService.t)
    (currentTokens : list Token) :
  NoDup (map token_address currentTokens) ->
  let after := detectChanges ws currentTokens in
  detectChanges after currentTokens = after.
Proof.
  intros Hnd. cbv zeta. set (after := detectChanges ws currentTokens).
  assert (Hprev : previousTokenData after
                  = previousTokenData (fst (runLoop ws currentTokens))).
  { unfold after, detectChanges.
    destruct (runLoop ws currentTokens) as [ws1 c1].
    apply broadcast_previousTokenData. }
  assert (Hsnap : Forall (fun e => token_address (snd e) = ""%string \/
                    previousTokenData after
                      !! token_address (snd e) = Some (snd e))
                    (combine (seq 0 (length currentTokens)) currentTokens)).
  { rewrite Hprev. apply fold_processToken_snapshot.
    rewrite entries_addresses. exact Hnd. }
  unfold detectChanges at 1. unfold runLoop.
  rewrite (fold_processToken_same _ _ _ Hsnap). reflexivity.
Qed.

Lemma same_reading_is_silent_witness :
  detectChanges (detectChanges saw_hundred [hundred_now; ranked_first])
    [hundred_now; ranked_first]
  = detectChanges saw_hundred [hundred_now; ranked_first].
Proof.
  apply (same_reading_is_silent saw_hundred [hundred_now; ranked_first]).
  apply (bool_decide_unpack _). vm_compute. exact I.
Defined.

End Quiet.

(** ** The one-hour view and the tokens only Jupiter lists *)
Section OneHour.
Import JS Types AggregatorService Spec Samples.
Local Open Scope Z_scope.

Lemma mergeTokenData_no_1h (t1 t2 r : Token) :
  price_1hr_change t1 = None -> price_1hr_change t2 = None ->
  mergeTokenData (Some t1) (Some t2) = Some r -> price_1hr_change r = None.
Proof.
  unfold mergeTokenData. intros H1 H2.
  destruct (0 <? price_sol t1)%float; intros [= <-]; cbn; assumption.
Qed.

Lemma fold_merge_step_no_1h (tokens : list Token) :
  forall tokenMap : Map Token,
  Forall (fun kv => price_1hr_change (snd kv) = None) tokenMap ->
  Forall (fun t => price_1hr_change t = None) tokens ->
  Forall (fun kv => price_1hr_change (snd kv) = None)
         (fold_left merge_step tokens tokenMap).
Proof.
  induction tokens as [|t ts IH]; intros m Hm Hts; [exact Hm|].
  apply Forall_cons in Hts as [Ht Hts]. cbn [fold_left].
  apply IH; [|exact Hts]. unfold merge_step.
  destruct (negb _); [apply Map_set_Forall; [exact Hm|exact Ht]|].
  destruct (Map_get m _) as [existing|] eqn:Hget.
  - destruct (mergeTokenData _ _) as [merged|] eqn:Hmerge; [|exact Hm].
    apply Map_set_Forall; [exact Hm|]. cbn [snd].
    apply (mergeTokenData_no_1h existing t merged); [|exact Ht|exact Hmerge].
    exact (Map_get_Forall _ _ _ _ Hm Hget).
  - cbn [mergeTokenData]. apply Map_set_Forall; [exact Hm|exact Ht].
Qed.

Lemma applyFilters_1h_none (tokens : list Token) (minVolume : number) :
  Forall (fun t => price_1hr_change t = None) tokens ->
  applyFilters tokens "1h" minVolume = [].
Proof.
  unfold applyFilters. induction 1 as [|t ts Ht _ IH]; [reflexivity|].
  cbn [List.filter]. rewrite Ht, IH. cbn.
  destruct (volume_sol t <? minVolume)%float; reflexivity.
Qed.

Lemma slice_nil {A} (a b : jsint) : slice (@nil A) a b = [].
Proof. unfold slice. cbv zeta. rewrite drop_nil. apply take_nil. Qed.

(** The one-hour view shows no token that only Jupiter lists.  Jupiter's
    tokens carry no one-hour price change, deduplication gives them none,
    and the filter for period "1h" drops every token without one: when
    DexScreener fails and the aggregated search is not cached, a search
    with period "1h" returns an empty page with total 0, however many
    tokens Jupiter found. *)
Theorem one_hour_view_hides_jupiter_tokens (up : Upstream)
    (cache : CacheService.t) (q : TokenQuery) (query e : string)
    (now : number) (jupiterTokens : list JupiterAPI.JupiterToken) :
  search q = Some query -> query <> ""%string ->
  period q = Some "1h"%string ->
  CacheService.get cache (CACHE_PREFIX ++ "search:" ++ query)%string = None ->
  dexScreenerAPI_searchTokens up query = rejected e ->
  jupiterAPI_searchTokens up query
    = fulfilled (JupiterAPI.transformJupiterTokens now jupiterTokens) ->
  exists page cache',
    getFilteredTokens up cache q = (Ok page, cache') /\
    data page = [] /\ total (pagination page) = 0.
Proof.
  intros Hsearch Hquery Hperiod Hmiss Hdex Hjup.
  unfold getFilteredTokens, resolveTokens. rewrite Hsearch, Hperiod.
  cbv zeta. cbn [from_option id].
  apply String.eqb_neq in Hquery. rewrite Hquery. cbn [negb].
  unfold searchTokens. rewrite Hmiss, Hdex, Hjup. cbn [app].
  eexists _, _. split; [reflexivity|].
  assert (Hnone : applyFilters
            (mergeAndDeduplicateTokens
               (JupiterAPI.transformJupiterTokens now jupiterTokens))
            "1h" (default 0%float (minVolume q)) = []).
  { apply applyFilters_1h_none.
    unfold mergeAndDeduplicateTokens, Map_values.
    apply List.Forall_map.
    apply fold_merge_step_no_1h; [constructor|].
    unfold JupiterAPI.transformJupiterTokens. apply List.Forall_map.
    apply List.Forall_forall. intros j _. reflexivity. }
  rewrite Hnone. unfold sortTokens, JS.sort, paginate.
  cbn [foldr data pagination total length]. split; [apply slice_nil|reflexivity].
Qed.

Lemma one_hour_view_hides_jupiter_tokens_witness :
  exists page cache',
    getFilteredTokens jupiter_only connected_empty
      {| limit := None; cursor := None; sortBy := None; order := None;
         period := Some "1h"%string; search := Some "sol"%string;
         minVolume := None |} = (Ok page, cache') /\
    data page = [] /\ total (pagination page) = 0.
Proof.
  apply (one_hour_view_hides_jupiter_tokens jupiter_only connected_empty
           {| limit := None; cursor := None; sortBy := None; order := None;
              period := Some "1h"%string; search := Some "sol"%string;
              minVolume := None |} "sol" "timeout" 0%float
           [ {| JupiterAPI.address := "So11";
                JupiterAPI.name := "Wrapped SOL";
                JupiterAPI.symbol := "SOL";
                JupiterAPI.daily_volume := Some 100%float |} ]);
    try reflexivity.
  discriminate.
Defined.

End OneHour.

(** ** WebSocketService: a poll that reads only unknown tokens *)
Section FirstPoll.
Import JS Types WebSocketService Spec Samples.

Lemma fold_processToken_new (entries : list (nat * Token)) :
  forall (ws : WebSocketService.t) (c : Cycle),
  NoDup (map (fun e => token_address (snd e)) entries) ->
  Forall (fun e => token_address (snd e) <> ""%string /\
                   previousTokenData ws !! token_address (snd e) = None)
         entries ->
  exists ws' c',
    fold_left processToken entries (ws, c) = (ws', c') /\
    emitted ws' = emitted ws ++ map (fun e => new_token (snd e)) entries /\
    updates c' = updates c ++ entries /\
    priceUpdates c' = priceUpdates c /\
    volumeSpikes c' = volumeSpikes c.
Proof.
  induction entries as [|[i t] entries IH]; intros ws c Hnd Hall.
  - exists ws, c. cbn [fold_left map]. rewrite !app_nil_r. auto.
  - cbn [map snd] in Hnd. apply NoDup_cons in Hnd as [Hfresh Hnd].
    apply Forall_cons in Hall as [[Haddr Hnone] Hall]. cbn [snd] in Haddr, Hnone.
    cbn [fold_left]. unfold processToken at 2.
    apply String.eqb_neq in Haddr. rewrite Haddr, Hnone. cbv zeta.
    match goal with
    | |- context [fold_left processToken entries (?ws1, ?c1)] =>
        destruct (IH ws1 c1 Hnd) as (ws' & c' & Hfold & He & Hu & Hp & Hv)
    end.
    { apply List.Forall_forall. intros e He.
      pose proof (proj1 (List.Forall_forall _ _) Hall e He) as [Ha Hn].
      split; [exact Ha|].
      cbn [remember emitEvent previousTokenData].
      rewrite lookup_insert_ne; [exact Hn|].
      intros Heq. apply Hfresh. rewrite Heq.
      apply list_elem_of_In, in_map_iff. exists e. split; [reflexivity|exact He]. }
    exists ws', c'. split; [exact Hfold|]. rewrite He, Hu, Hp, Hv.
    cbn [remember emitEvent emitted updates priceUpdates volumeSpikes map snd].
    rewrite <- !app_assoc. auto.
Qed.

Lemma entries_tokens (tokens : list Token) (n : nat) :
  map snd (combine (seq n (length tokens)) tokens) = tokens.
Proof.
  revert n. induction tokens as [|t ts IH]; intros n; [reflexivity|].
  cbn [length seq combine map snd]. rewrite IH. reflexivity.
Qed.

(** A poll that reads only tokens it has no snapshot of, under valid
    addresses that are all different, announces each of them as a new
    token, in the order read, then broadcasts all of them once as the
    updated batch, and emits no price update and no volume spike: the
    first poll after a start is of this kind. *)
Theorem unknown_tokens_are_announced (ws : WebSocketService.t)
    (currentTokens : list Token) :
  NoDup (map token_address currentTokens) ->
  Forall (fun t => token_address t <> ""%string /\
                   previousTokenData ws !! token_address t = None)
         currentTokens ->
  emitted (detectChanges ws currentTokens) =
    emitted ws ++ map new_token currentTokens ++
    match currentTokens with
    | [] => []
    | _ => [tokens_updated currentTokens]
    end.
Proof.
  intros Hnd Hall. unfold detectChanges, runLoop.
  set (entries := combine (seq 0 (length currentTokens)) currentTokens).
  assert (Hsnd : map snd entries = currentTokens) by apply entries_tokens.
  destruct (fold_processToken_new entries ws emptyCycle)
    as (ws' & c' & Hfold & He & Hu & Hp & Hv).
  { rewrite <- (map_map snd token_address), Hsnd. exact Hnd. }
  { apply List.Forall_forall. intros [i t] Hin. cbn [snd].
    apply (proj1 (List.Forall_forall _ _) Hall).
    rewrite <- Hsnd. apply in_map_iff. exists (i, t). auto. }
  rewrite Hfold. cbn [emptyCycle updates priceUpdates volumeSpikes app]
    in Hu, Hp, Hv.
  unfold broadcast. rewrite Hu, Hp, Hv, Hsnd. cbn [length Nat.ltb Nat.leb].
  rewrite <- (map_map snd new_token), Hsnd in He.
  assert (Hlen : length entries = length currentTokens)
    by (unfold entries; rewrite length_combine, length_seq; lia).
  rewrite Hlen. clear Hlen Hsnd Hfold Hu. clearbody entries.
  destruct currentTokens as [|t ts].
  - cbn [length Nat.ltb Nat.leb]. rewrite He. reflexivity.
  - cbn [length Nat.ltb Nat.leb emitEvent emitted]. rewrite He, <- app_assoc.
    reflexivity.
Qed.

Lemma unknown_tokens_are_announced_witness :
  emitted (detectChanges saw_hundred [ranked_first; ranked_second]) =
    emitted saw_hundred ++ [new_token ranked_first; new_token ranked_second]
    ++ [tokens_updated [ranked_first; ranked_second]].
Proof.
  apply (unknown_tokens_are_announced saw_hundred [ranked_first; ranked_second]).
  - apply (bool_decide_unpack _). vm_compute. exact I.
  - repeat constructor; try discriminate; reflexivity.
Defined.

End FirstPoll.

(** ** TokenController: validation of the query *)
Section Validation.
Import JS Types TokenController Samples.
Variable parseFloat : string -> number.
Local Open Scope Z_scope.

(** A limit that parses to a number outside [[1, 100]] is rejected. *)
Lemma validateQuery_limit_out_of_range (q : Query) (z : Z) :
  parseInt (default "30"%string (limit q)) = JInt z ->
  z < 1 \/ 100 < z ->
  validateQuery parseFloat q =
    inl (mkAppError 400 "INVALID_LIMIT" "Limit must be between 1 and 100").
Proof.
  intros Hp Hz. unfold validateQuery. rewrite Hp. cbn [lt_int gt_int].
  destruct (Z.ltb_spec z 1); [reflexivity|].
  destruct (Z.ltb_spec 100 z); [reflexivity|lia].
Qed.

(** For a limit that parses to a number, the query reaches the aggregator
    exactly when the number lies in [[1, 100]] and [sortBy], [order] and
    [period] are among the accepted words; every rejection is a 400. *)
Theorem validateQuery_decides (q : Query) (z : Z) :
  parseInt (default "30"%string (limit q)) = JInt z ->
  ((exists query, validateQuery parseFloat q = inr query) <->
   1 <= z <= 100 /\
   one_of ["volume"; "price_change"; "market_cap"; "liquidity"]%string
          (default "volume"%string (sortBy q)) = true /\
   one_of ["asc"; "desc"]%string (default "desc"%string (order q)) = true /\
   one_of ["1h"; "24h"; "7d"]%string (default "24h"%string (period q)) = true) /\
  (forall error, validateQuery parseFloat q = inl error -> statusCode error = 400).
Proof.
  intros Hp. unfold validateQuery. rewrite Hp. cbn [lt_int gt_int].
  destruct (Z.ltb_spec z 1); cbn [orb].
  { split; [split; [intros [? ?]; discriminate|lia]|intros ? [= <-]; reflexivity]. }
  destruct (Z.ltb_spec 100 z).
  { split; [split; [intros [? ?]; discriminate|lia]|intros ? [= <-]; reflexivity]. }
  destruct (one_of ["volume"; "price_change"; "market_cap"; "liquidity"]%string _);
    cbn [negb].
  2: { split; [split; [intros [? ?]; discriminate|intros (_ & ? & _); discriminate]
              |intros ? [= <-]; reflexivity]. }
  destruct (one_of ["asc"; "desc"]%string _); cbn [negb].
  2: { split; [split; [intros [? ?]; discriminate|intros (_ & _ & ? & _); discriminate]
              |intros ? [= <-]; reflexivity]. }
  destruct (one_of ["1h"; "24h"; "7d"]%string _); cbn [negb].
  2: { split; [split; [intros [? ?]; discriminate|intros (_ & _ & _ & ?); discriminate]
              |intros ? [= <-]; reflexivity]. }
  split; [split; [intros _; repeat split; lia|intros _; eexists; reflexivity]
         |intros ? [=]].
Qed.

(** C9 does not hold for a limit that is not a number: [parseInt] gives
    NaN, both comparisons with NaN are false, no error is raised and the
    aggregator is called with the limit NaN.  The response is a success
    with an empty page. *)
Theorem validateQuery_passes_NaN_limit :
  parseInt "abc" = JNaN /\
  validateQuery parseFloat (only_limit "abc") =
    inr {| Types.limit := Some JNaN;
           Types.cursor := None;
           Types.sortBy := Some "volume"%string;
           Types.order := Some "desc"%string;
           Types.period := Some "24h"%string;
           Types.search := Some ""%string;
           Types.minVolume := Some (parseFloat "0") |} /\
  exists page,
    fst (getTokens parseFloat three_ranked disconnected (only_limit "abc"))
      = res_json page /\
    data page = [].
Proof.
  split; [reflexivity|]. split; [reflexivity|].
  unfold getTokens.
  change (validateQuery parseFloat (only_limit "abc"))
    with (@inr AppError TokenQuery
            {| Types.limit := Some JNaN;
               Types.cursor := None;
               Types.sortBy := Some "volume"%string;
               Types.order := Some "desc"%string;
               Types.period := Some "24h"%string;
               Types.search := Some ""%string;
               Types.minVolume := Some (parseFloat "0") |}).
  unfold AggregatorService.getFilteredTokens.
  cbn [Types.limit Types.cursor Types.sortBy Types.order Types.period
       Types.search Types.minVolume default].
  change (AggregatorService.resolveTokens three_ranked disconnected "")
    with (Ok [ranked_third; ranked_first; ranked_second], disconnected).
  eexists. split; [reflexivity|].
  unfold AggregatorService.paginate. cbn [data].
  change (AggregatorService.startIndexOf None) with (JInt 0).
  cbn [add_int]. apply slice_to_NaN. lia.
Qed.

End Validation.

Lemma validateQuery_decides_witness :
  exists query,
    TokenController.validateQuery (fun _ => 0%float) (Samples.only_limit "10")
      = inr query.
Proof.
  apply (validateQuery_decides (fun _ => 0%float) (Samples.only_limit "10") 10);
    [reflexivity|].
  repeat split; try reflexivity; lia.
Defined.

(** ** TokenController: the size of a page of [GET /api/tokens] *)
Section Endpoint.
Import JS Types TokenController Samples.
Variable parseFloat : string -> number.
Local Open Scope Z_scope.

Lemma validateQuery_limit (q : Query) (query : TokenQuery) :
  validateQuery parseFloat q = inr query ->
  Types.limit query = Some (parseInt (default "30"%string (limit q))) /\
  Types.cursor query = cursor q /\
  match parseInt (default "30"%string (limit q)) with
  | JNaN => True
  | JInt z => 1 <= z <= 100
  end.
Proof.
  unfold validateQuery.
  destruct (parseInt (default "30"%string (limit q))) as [|z];
    cbn [lt_int gt_int orb].
  - repeat (destruct (negb _); [discriminate|]). intros [= <-]. auto.
  - destruct (Z.ltb_spec z 1); [discriminate|].
    destruct (Z.ltb_spec 100 z); [discriminate|]. cbn [orb].
    repeat (destruct (negb _); [discriminate|]). intros [= <-].
    cbn. repeat split; lia.
Qed.

(** Whatever the request, a successful answer of [GET /api/tokens] holds
    at most 100 tokens: at most the limit asked for when it is a number,
    which is then between 1 and 100, and none when it is not a number;
    the cursor, negative or beyond the end as it may be, does not change
    that. *)
Theorem getTokens_page_size (up : AggregatorService.Upstream)
    (cache cache' : CacheService.t) (q : Query)
    (page : PaginatedResponse Token) :
  getTokens parseFloat up cache q = (res_json page, cache') ->
  Z.of_nat (length (data page)) <= 100 /\
  match parseInt (default "30"%string (limit q)) with
  | JNaN => data page = []
  | JInt z => 1 <= z <= 100 /\ Z.of_nat (length (data page)) <= z
  end.
Proof.
  unfold getTokens.
  destruct (validateQuery parseFloat q) as [error|query] eqn:Hvalid;
    [discriminate|].
  apply validateQuery_limit in Hvalid as (Hlimit & _ & Hrange).
  unfold AggregatorService.getFilteredTokens. rewrite Hlimit. cbn [from_option id].
  destruct (AggregatorService.resolveTokens _ _ _) as [[tokens|e] cache1];
    [|discriminate].
  intros [= <- <-]. unfold AggregatorService.paginate. cbn [data].
  destruct (parseInt (default "30"%string (limit q))) as [|z].
  - replace (add_int (AggregatorService.startIndexOf (Types.cursor query)) JNaN)
      with JNaN
      by (destruct (AggregatorService.startIndexOf _); reflexivity).
    rewrite slice_NaN_end. cbn [length]. split; [lia|reflexivity].
  - pose proof (slice_length
                  (AggregatorService.sortTokens
                     (AggregatorService.applyFilters tokens
                        (default "24h"%string (Types.period query))
                        (default 0%float (Types.minVolume query)))
                     (default "volume"%string (Types.sortBy query))
                     (default "desc"%string (Types.order query)))
                  (AggregatorService.startIndexOf (Types.cursor query)) z
                  ltac:(lia)) as Hlen.
    split; [lia|split; [exact Hrange|exact Hlen]].
Qed.

End Endpoint.

Lemma getTokens_page_size_witness :
  exists page,
    TokenController.getTokens (fun _ => 0%float) Samples.three_ranked
      Samples.disconnected (Samples.only_limit "2")
      = (TokenController.res_json page, Samples.disconnected) /\
    (Z.of_nat (length (Types.data page)) <= 100)%Z.
Proof.
  eexists. split; [vm_compute; reflexivity|].
  apply (getTokens_page_size (fun _ => 0%float) Samples.three_ranked
           Samples.disconnected Samples.disconnected (Samples.only_limit "2")).
  vm_compute. reflexivity.
Defined.
